(** * ChatterBot: the engine facade [chatterbot/chatterbot.py]

    A shallow embedding of [ChatBot] (constructor, [get_response],
    [generate_response], [learn_response],
    [get_or_create_default_conversation]) with explicit state passing.
    The bot object is a record; every method takes the bot and returns the
    bot it leaves behind together with its result.

    The storage adapter, the conversation manager, the multi logic adapter,
    the statement class and the input/output adapters live in modules that
    are not part of the sources at hand.  Their behaviour is either taken
    as a field of the bot (input adapter, output adapter, preprocessors,
    logic adapters) or modelled from the design document; every such
    definition says so in its comment. *)

From Stdlib Require Import QArith.
From stdpp Require Import gmap strings list fin_maps.

Local Open Scope Z_scope.

(** ** Data model *)

(** Modelled from the spec: the class behind [storage.Response(text)] is
    missing; a link towards the text of a prior statement, carrying the
    count of that pairing. *)
Record Response := {
  response_text : string;
  occurrence : nat;
}.

(** Modelled from the spec: the [Response] constructor is missing; a link
    has count >= 1, so a new one starts at 1. *)
Definition mkResponse (t : string) : Response :=
  {| response_text := t; occurrence := 1 |}.

(** Modelled from the spec: the [Statement] class is missing; [text] is the
    natural key, [in_response_to] maps the text of each prior statement to
    the count of the pairing. *)
Record Statement := {
  text : string;
  occurrence_count : nat;
  in_response_to : gmap string nat;
}.

Definition mkStatement (t : string) : Statement :=
  {| text := t; occurrence_count := 0; in_response_to := ∅ |}.

(** Modelled from the spec: [Statement.add_response] is missing; it creates
    the response link or increments its count. *)
Definition add_response (statement : Statement) (response : Response) : Statement :=
  let links := in_response_to statement in
  let t := response_text response in
  {| text := text statement;
     occurrence_count := occurrence_count statement;
     in_response_to :=
       match links !! t with
       | Some n => <[t := S n]> links
       | None => <[t := occurrence response]> links
       end |}.

(** The count of the link [prior -> statement], 0 when there is none. *)
Definition link_count (statement : Statement) (prior : string) : nat :=
  default 0%nat (in_response_to statement !! prior).

(** Modelled from the spec: the storage adapter classes are missing; the
    persisted statements keyed by text, and the conversations keyed by id,
    each an ordered sequence of turns.  A conversation object of the
    program is a handle on a row of [conversations_table]: its id. *)
Record StorageAdapter := {
  statements_table : gmap string Statement;
  conversations_table : gmap Z (list Statement);
}.

Definition empty_storage : StorageAdapter :=
  {| statements_table := ∅; conversations_table := ∅ |}.

(** Modelled from the spec: statements of equal text are one entity and
    their counts merge; the links a statement carries are added to the
    persisted ones, so that no persisted count is lost. *)
Definition merge_links (persisted carried : gmap string nat) : gmap string nat :=
  union_with (fun n m => Some (n + m)%nat) persisted carried.

(** Modelled from the spec: [StorageAdapter.update] is missing; it persists
    the statement under its text: the occurrence count goes up by one and
    the links it carries are merged into the persisted ones. *)
Definition storage_update (s : StorageAdapter) (statement : Statement) : StorageAdapter :=
  let seen :=
    match statements_table s !! text statement with
    | Some old => occurrence_count old
    | None => 0%nat
    end in
  let links :=
    match statements_table s !! text statement with
    | Some old => in_response_to old
    | None => ∅
    end in
  {| statements_table :=
       <[text statement :=
           {| text := text statement;
              occurrence_count := S seen;
              in_response_to := merge_links links (in_response_to statement) |}]>
         (statements_table s);
     conversations_table := conversations_table s |}.

(** Modelled from the spec: [Statement.save] is missing; it persists the
    statement through the storage adapter. *)
Definition statement_save (s : StorageAdapter) (statement : Statement) : StorageAdapter :=
  storage_update s statement.

(** Modelled from the spec: [storage.Conversation.objects.create] is
    missing; it makes a new empty conversation under an id not in use. *)
Definition Conversation_objects_create (s : StorageAdapter) : StorageAdapter * Z :=
  let id := fresh (dom (conversations_table s)) in
  ({| statements_table := statements_table s;
      conversations_table := <[id := []]> (conversations_table s) |}, id).

(** Modelled from the spec: [ConversationManager.get] is missing; it looks
    the conversation up by id. *)
Definition conversations_get (s : StorageAdapter) (conversation_id : Z) : option Z :=
  match conversations_table s !! conversation_id with
  | Some _ => Some conversation_id
  | None => None
  end.

(** Modelled from the spec: [conversation.statements] is missing; the
    turns of a conversation, none for an unknown handle. *)
Definition statements (s : StorageAdapter) (conversation : Z) : list Statement :=
  default [] (conversations_table s !! conversation).

(** Modelled from the spec: [conversation.statements.add] is missing; it
    appends the statement to the ordered sequence of the conversation. *)
Definition statements_add (s : StorageAdapter) (conversation : Z) (statement : Statement)
  : StorageAdapter :=
  {| statements_table := statements_table s;
     conversations_table :=
       <[conversation := statements s conversation ++ [statement]]>
         (conversations_table s) |}.

(** Modelled from the spec: [Conversation.get_last_response_statement] is
    missing; it is the most recently appended statement, absent for an
    empty conversation. *)
Definition get_last_response_statement (s : StorageAdapter) (conversation : Z)
  : option Statement :=
  last (statements s conversation).

(** ** Collaborators held by the bot *)

(** The object a strategy hands back as the response: the input statement
    object it was given, or a statement object of its own. *)
Inductive Selected :=
  | Input_statement
  | Other_statement (s : Statement).

(** A matching strategy: from the input statement and the candidate pool
    to a response and its confidence. *)
Definition LogicAdapter : Type := Statement -> list Statement -> Selected * Q.

(** [process_input_statement]: reads the storage, returns a statement. *)
Definition InputAdapter : Type := StorageAdapter -> string -> Statement.

(** [process_response(response, conversation.id)]. *)
Definition OutputAdapter : Type := Statement -> Z -> Statement.

(** [preprocessor(self, input_statement)]: a transform of the statement;
    the bot argument is left out. *)
Definition Preprocessor : Type := Statement -> Statement.

(** Modelled from the spec: the [MultiLogicAdapter] class is missing; the
    configured strategies and the system ones, both in order. *)
Record MultiLogicAdapter := {
  adapters : list LogicAdapter;
  system_adapters : list LogicAdapter;
}.

(** What [self.logger.info] receives in [learn_response]. *)
Record LogRecord := Adding_response {
  log_statement_text : string;
  log_previous_text : string;
}.

(** The fields of the bot that [get_response] and [learn_response] touch;
    [filters], [trainer] and [training_data] are left out. *)
Record ChatBot := {
  name : string;
  logic : MultiLogicAdapter;
  storage : StorageAdapter;
  input : InputAdapter;
  output : OutputAdapter;
  preprocessors : list Preprocessor;
  default_conversation : option Z;
  logger : list LogRecord;
  read_only : bool;
}.

Definition set_storage (b : ChatBot) (s : StorageAdapter) : ChatBot :=
  {| name := name b; logic := logic b; storage := s; input := input b;
     output := output b; preprocessors := preprocessors b;
     default_conversation := default_conversation b; logger := logger b;
     read_only := read_only b |}.

Definition set_default_conversation (b : ChatBot) (c : option Z) : ChatBot :=
  {| name := name b; logic := logic b; storage := storage b; input := input b;
     output := output b; preprocessors := preprocessors b;
     default_conversation := c; logger := logger b;
     read_only := read_only b |}.

Definition logger_info (b : ChatBot) (r : LogRecord) : ChatBot :=
  {| name := name b; logic := logic b; storage := storage b; input := input b;
     output := output b; preprocessors := preprocessors b;
     default_conversation := default_conversation b; logger := logger b ++ [r];
     read_only := read_only b |}.

(** ** The ensemble selector *)

(** [a > b] on confidences; a confidence is a number of [0,1], held as a
    rational. *)
Definition Qgtb (a b : Q) : bool :=
  match (a ?= b)%Q with Gt => true | _ => false end.

(** Modelled from the spec: one step of the missing selection; the running
    best is replaced only by a strictly higher confidence. *)
Definition select_step (best : option (Selected * Q)) (r : Selected * Q)
  : option (Selected * Q) :=
  match best with
  | None => Some r
  | Some b => if Qgtb (snd r) (snd b) then Some r else Some b
  end.

(** Modelled from the spec: the selection of [MultiLogicAdapter.process] is
    missing; the result with the strictly highest confidence wins, and on
    exact ties the earliest strategy in the configured order. *)
Definition select (results : list (Selected * Q)) : option (Selected * Q) :=
  fold_left select_step results None.

(** Modelled from the spec: [MultiLogicAdapter.get_adapters] is missing;
    the configured strategies in order, the system ones last. *)
Definition get_adapters (l : MultiLogicAdapter) : list LogicAdapter :=
  adapters l ++ system_adapters l.

(** Modelled from the spec: every strategy of a list runs, in order, on
    the same input and pool. *)
Definition evaluate (strategies : list LogicAdapter) (pool : list Statement)
    (input_statement : Statement) : list (Selected * Q) :=
  (fun adapter : LogicAdapter => adapter input_statement pool) <$> strategies.

Definition evaluate_all (l : MultiLogicAdapter) (pool : list Statement)
    (input_statement : Statement) : list (Selected * Q) :=
  evaluate (get_adapters l) pool input_statement.

(** A result of confidence 0: the strategy has no opinion. *)
Definition no_opinion (r : Selected * Q) : bool := Qeq_bool (snd r) 0.

(** Modelled from the spec: [MultiLogicAdapter.process] is missing.  When
    every strategy but the fallback returns confidence 0 the response of the
    fallback is used; otherwise [select] chooses among all the results, the
    fallback last.  The result is absent when there is nothing to choose
    from. *)
Definition MultiLogicAdapter_process (l : MultiLogicAdapter) (pool : list Statement)
    (input_statement : Statement) : option Selected :=
  let configured := evaluate (adapters l) pool input_statement in
  let fallback := evaluate (system_adapters l) pool input_statement in
  fst <$> (if forallb no_opinion configured then select fallback
           else select (configured ++ fallback)).

(** Modelled from the spec: [storage.generate_base_query] is missing; the
    candidate pool read from the store for the conversation (the scoping is
    store specific: here every persisted statement). *)
Definition generate_base_query (s : StorageAdapter) (conversation_id : Z)
  : list Statement :=
  snd <$> map_to_list (statements_table s).

(** Modelled from the spec: [NoKnowledgeAdapter] is missing; it answers the
    configured default response with confidence 0. *)
Definition NoKnowledgeAdapter (default_response : Statement) : LogicAdapter :=
  fun _ _ => (Other_statement default_response, 0%Q).

(** ** The methods of [ChatBot] *)

(** Python truth value of the [conversation_id] argument: [None] and 0 are
    false.  Statement and conversation objects are always true, so
    [if not conversation] and [if previous_statement] only test for
    [None]. *)
Definition truthy_id (conversation_id : option Z) : bool :=
  match conversation_id with
  | Some z => negb (z =? 0)
  | None => false
  end.

(** [get_or_create_default_conversation], lines 176-185. *)
Definition get_or_create_default_conversation (b : ChatBot) : ChatBot * Z :=
  match default_conversation b with
  | Some c => (b, c)
  | None =>
      let '(s, c) := Conversation_objects_create (storage b) in
      (set_default_conversation (set_storage b s) (Some c), c)
  end.

(** [generate_response], lines 133-142. *)
Definition generate_response (b : ChatBot) (input_statement : Statement)
    (conversation_id : Z) : Statement * option Selected :=
  let pool := generate_base_query (storage b) conversation_id in
  let response := MultiLogicAdapter_process (logic b) pool input_statement in
  (input_statement, response).

(** [learn_response], lines 144-163.  The statement is mutated in place by
    [add_response]; the mutated object is returned next to the bot. *)
Definition learn_response (b : ChatBot) (statement : Statement)
    (previous_statement : option Statement) (conversation : option Z)
  : ChatBot * Statement :=
  let '(b, conversation) :=
    match conversation with
    | Some c => (b, c)
    | None => get_or_create_default_conversation b
    end in
  let '(b, statement) :=
    match previous_statement with
    | Some previous =>
        let statement := add_response statement (mkResponse (text previous)) in
        (logger_info b (Adding_response (text statement) (text previous)), statement)
    | None => (b, statement)
    end in
  if read_only b then (b, statement)
  else
    let s := storage_update (storage b) statement in
    let s := statements_add s conversation statement in
    (set_storage b s, statement).

(** Lines 111-117 of [get_response]: the conversation of the call. *)
Definition resolve_conversation (b : ChatBot) (conversation_id : option Z)
  : ChatBot * Z :=
  if truthy_id conversation_id then
    match conversation_id ≫= conversations_get (storage b) with
    | Some conversation => (b, conversation)
    | None => get_or_create_default_conversation b
    end
  else get_or_create_default_conversation b.

(** Lines 105-109 of [get_response]: the input adapter, then every
    preprocessor in order. *)
Definition input_statement_of (b : ChatBot) (input_item : string) : Statement :=
  fold_left (fun statement preprocessor => preprocessor statement)
    (preprocessors b) (input b (storage b) input_item).

(** The statement behind [response] once [learn_response] has run: the
    input statement object was mutated in place, so a response that is this
    very object carries the added link. *)
Definition response_object (statement : Statement) (response : Selected) : Statement :=
  match response with
  | Input_statement => statement
  | Other_statement s => s
  end.

(** [get_response], lines 97-131.  The result is [None] when the logic
    adapter gives no response: [response.save()] or the output adapter then
    has nothing to work on. *)
Definition get_response (b : ChatBot) (input_item : string)
    (conversation_id : option Z) : ChatBot * option Statement :=
  let input_statement := input_statement_of b input_item in
  let '(b, conversation) := resolve_conversation b conversation_id in
  let '(statement, response) := generate_response b input_statement conversation in
  let previous_statement := get_last_response_statement (storage b) conversation in
  let '(b, statement) :=
    learn_response b statement previous_statement (Some conversation) in
  match response with
  | None => (b, None)
  | Some response =>
      let response := response_object statement response in
      let b :=
        if read_only b then b
        else
          let s := statement_save (storage b) response in
          set_storage b (statements_add s conversation response) in
      (b, Some (output b response conversation))
  end.

(** A session: calls to [get_response] one after the other. *)
Definition get_responses (b : ChatBot) (calls : list (string * option Z)) : ChatBot :=
  fold_left (fun b call => fst (get_response b (fst call) (snd call))) calls b.

(** ** The constructor *)

(** The keyword arguments the engine reads; [None] for an absent key.  The
    adapters are held resolved, not as dotted paths. *)
Record Kwargs := {
  kw_storage_adapter : option StorageAdapter;
  kw_logic_adapters : option (list LogicAdapter);
  kw_input_adapter : option InputAdapter;
  kw_output_adapter : option OutputAdapter;
  kw_preprocessors : option (list Preprocessor);
  kw_read_only : option bool;
  kw_default_response : Statement;
}.

(** The objects behind the default dotted paths of the constructor. *)
Record Modules := {
  JsonFileStorageAdapter : StorageAdapter;
  BestMatch : LogicAdapter;
  VariableInputTypeAdapter : InputAdapter;
  OutputAdapter_base : OutputAdapter;
  clean_whitespace : Preprocessor;
}.

(** Modelled from the spec: the constructor of [MultiLogicAdapter] and
    [add_adapter] are missing; an ordered list of strategies, grown at the
    end. *)
Definition MultiLogicAdapter_init : MultiLogicAdapter :=
  {| adapters := []; system_adapters := [] |}.

Definition add_adapter (l : MultiLogicAdapter) (adapter : LogicAdapter)
  : MultiLogicAdapter :=
  {| adapters := adapters l ++ [adapter]; system_adapters := system_adapters l |}.

Definition system_adapters_append (l : MultiLogicAdapter) (adapter : LogicAdapter)
  : MultiLogicAdapter :=
  {| adapters := adapters l; system_adapters := system_adapters l ++ [adapter] |}.

(** [__init__], lines 14-83. *)
Definition ChatBot_init (env : Modules) (name : string) (kwargs : Kwargs) : ChatBot :=
  let storage_adapter :=
    default (JsonFileStorageAdapter env) (kw_storage_adapter kwargs) in
  let logic_adapters := default [BestMatch env] (kw_logic_adapters kwargs) in
  let input_adapter :=
    default (VariableInputTypeAdapter env) (kw_input_adapter kwargs) in
  let output_adapter := default (OutputAdapter_base env) (kw_output_adapter kwargs) in
  let logic := MultiLogicAdapter_init in
  let logic :=
    system_adapters_append logic (NoKnowledgeAdapter (kw_default_response kwargs)) in
  let logic := fold_left add_adapter logic_adapters logic in
  let preprocessors := default [clean_whitespace env] (kw_preprocessors kwargs) in
  {| name := name;
     logic := logic;
     storage := storage_adapter;
     input := input_adapter;
     output := output_adapter;
     preprocessors := preprocessors;
     default_conversation := None;
     logger := [];
     read_only := default false (kw_read_only kwargs) |}.

(** ** Concrete collaborators for the examples *)

Module Demo.

(** A new statement for the text: what the call has observed. *)
Definition plain_input : InputAdapter := fun _ item => mkStatement item.

Definition plain_output : OutputAdapter := fun response _ => response.

Definition env : Modules :=
  {| JsonFileStorageAdapter := empty_storage;
     BestMatch := fun _ _ => (Input_statement, 0%Q);
     VariableInputTypeAdapter := plain_input;
     OutputAdapter_base := plain_output;
     clean_whitespace := fun statement => statement |}.

Definition sorry : Statement := mkStatement "I don't understand".

Definition kwargs (ro : option bool) : Kwargs :=
  {| kw_storage_adapter := None;
     kw_logic_adapters := Some [];
     kw_input_adapter := None;
     kw_output_adapter := None;
     kw_preprocessors := None;
     kw_read_only := ro;
     kw_default_response := sorry |}.

Definition bot : ChatBot := ChatBot_init env "demo" (kwargs None).
Definition frozen_bot : ChatBot := ChatBot_init env "demo" (kwargs (Some true)).

(** Two strategies that tie at 0.75, as in the scenario of the design
    document. *)
Definition frequency : LogicAdapter :=
  fun _ _ => (Other_statement (mkStatement "I am good"), 3 # 4).
Definition lexical : LogicAdapter :=
  fun _ _ => (Other_statement (mkStatement "Fine"), 3 # 4).

Definition tied_kwargs : Kwargs :=
  {| kw_storage_adapter := None;
     kw_logic_adapters := Some [frequency; lexical];
     kw_input_adapter := None;
     kw_output_adapter := None;
     kw_preprocessors := None;
     kw_read_only := None;
     kw_default_response := sorry |}.

Definition tied_bot : ChatBot := ChatBot_init env "demo" tied_kwargs.

Definition hi : Statement := mkStatement "Hi".
Definition hello : Statement := mkStatement "Hello".

End Demo.


(** ** Vocabulary of the statements *)

(** The statement [learn_response] ends up with: the link towards the
    previous statement added when there is one. *)
Definition learned (statement : Statement) (previous_statement : option Statement)
  : Statement :=
  match previous_statement with
  | Some previous => add_response statement (mkResponse (text previous))
  | None => statement
  end.

(** The persisted occurrence count of a text, 0 when it was never stored. *)
Definition stored_count (s : StorageAdapter) (t : string) : nat :=
  match statements_table s !! t with
  | Some old => occurrence_count old
  | None => 0%nat
  end.


(** What a read-only engine may do to its store between [b] and [b']:
    nothing, or create the empty default conversation when there was
    none. *)
Definition frozen (b b' : ChatBot) : Prop :=
  read_only b' = true ∧
  ((storage b' = storage b ∧ default_conversation b' = default_conversation b) ∨
   (default_conversation b = None ∧
    ∃ c, default_conversation b' = Some c ∧
         conversations_table (storage b) !! c = None ∧
         storage b' =
           {| statements_table := statements_table (storage b);
              conversations_table := <[c := []]> (conversations_table (storage b)) |})).

(** [n] calls of [get_or_create_default_conversation] in a row. *)
Definition default_conversation_calls (n : nat) (b : ChatBot) : ChatBot :=
  Nat.iter n (fun b => fst (get_or_create_default_conversation b)) b.

(** The attribute assignment [bot.read_only = flag]. *)
Definition set_read_only (b : ChatBot) (flag : bool) : ChatBot :=
  {| name := name b; logic := logic b; storage := storage b; input := input b;
     output := output b; preprocessors := preprocessors b;
     default_conversation := default_conversation b; logger := logger b;
     read_only := flag |}.

(** A bot over a store that already holds the conversations 0 and 7. *)
Module Seeded.

Definition seeded_storage : StorageAdapter :=
  {| statements_table := ∅;
     conversations_table := <[7 := []]> (<[0 := []]> ∅) |}.

Definition kwargs : Kwargs :=
  {| kw_storage_adapter := Some seeded_storage;
     kw_logic_adapters := Some [];
     kw_input_adapter := None;
     kw_output_adapter := None;
     kw_preprocessors := None;
     kw_read_only := None;
     kw_default_response := Demo.sorry |}.

Definition bot : ChatBot := ChatBot_init Demo.env "seeded" kwargs.

(** The same bot after a first call without a conversation id. *)
Definition started : ChatBot := fst (get_response bot "Hi" None).

End Seeded.

(** A bot whose only configured strategy hands the input statement object
    back as the response, and one whose two configured strategies both
    return confidence 0. *)
Module Echo.

Definition echo : LogicAdapter := fun _ _ => (Input_statement, 1%Q).

Definition kwargs : Kwargs :=
  {| kw_storage_adapter := None;
     kw_logic_adapters := Some [echo];
     kw_input_adapter := None;
     kw_output_adapter := None;
     kw_preprocessors := None;
     kw_read_only := None;
     kw_default_response := Demo.sorry |}.

Definition bot : ChatBot := ChatBot_init Demo.env "echo" kwargs.

Definition unsure_good : LogicAdapter :=
  fun _ _ => (Other_statement (mkStatement "I am good"), 0%Q).
Definition unsure_fine : LogicAdapter :=
  fun _ _ => (Other_statement (mkStatement "Fine"), 0%Q).

Definition unsure_kwargs : Kwargs :=
  {| kw_storage_adapter := None;
     kw_logic_adapters := Some [unsure_good; unsure_fine];
     kw_input_adapter := None;
     kw_output_adapter := None;
     kw_preprocessors := None;
     kw_read_only := None;
     kw_default_response := Demo.sorry |}.

Definition unsure_bot : ChatBot := ChatBot_init Demo.env "unsure" unsure_kwargs.

End Echo.

(** ** Proof automation *)

Ltac unfold_engine :=
  unfold get_response, learn_response, resolve_conversation, generate_response,
    get_or_create_default_conversation, Conversation_objects_create,
    statement_save, logger_info, set_default_conversation, set_storage in *.

Ltac split_engine :=
  unfold_engine; repeat (case_match; simplify_eq/=); simpl in *.

(** * Properties *)

(** ** Frame lemmas: which fields a method leaves alone *)

Lemma default_conversation_fresh (s : StorageAdapter) :
  conversations_table s !! fresh (dom (conversations_table s)) = None.
Proof. apply not_elem_of_dom, is_fresh. Qed.

Lemma get_or_create_default_conversation_cached (b : ChatBot) :
  default_conversation (fst (get_or_create_default_conversation b))
  = Some (snd (get_or_create_default_conversation b)).
Proof. by split_engine. Qed.

Lemma get_or_create_default_conversation_hit (b : ChatBot) (c : Z) :
  default_conversation b = Some c ->
  get_or_create_default_conversation b = (b, c).
Proof. intros H. unfold get_or_create_default_conversation. by rewrite H. Qed.

Lemma get_or_create_default_conversation_read_only (b : ChatBot) :
  read_only (fst (get_or_create_default_conversation b)) = read_only b.
Proof. by split_engine. Qed.

Lemma get_or_create_default_conversation_logic (b : ChatBot) :
  logic (fst (get_or_create_default_conversation b)) = logic b.
Proof. by split_engine. Qed.

Lemma get_or_create_default_conversation_statements (b : ChatBot) :
  statements_table (storage (fst (get_or_create_default_conversation b)))
  = statements_table (storage b).
Proof. by split_engine. Qed.

Lemma get_or_create_default_conversation_logger (b : ChatBot) :
  logger (fst (get_or_create_default_conversation b)) = logger b.
Proof. by split_engine. Qed.

Lemma resolve_conversation_read_only (b : ChatBot) (cid : option Z) :
  read_only (fst (resolve_conversation b cid)) = read_only b.
Proof. by split_engine. Qed.

Lemma resolve_conversation_logic (b : ChatBot) (cid : option Z) :
  logic (fst (resolve_conversation b cid)) = logic b.
Proof. by split_engine. Qed.

Lemma resolve_conversation_logger (b : ChatBot) (cid : option Z) :
  logger (fst (resolve_conversation b cid)) = logger b.
Proof. by split_engine. Qed.

Lemma learn_response_read_only b statement previous conversation :
  read_only (fst (learn_response b statement previous conversation)) = read_only b.
Proof. by split_engine. Qed.

Lemma learn_response_logic b statement previous conversation :
  logic (fst (learn_response b statement previous conversation)) = logic b.
Proof. by split_engine. Qed.

Lemma get_response_read_only b item cid :
  read_only (fst (get_response b item cid)) = read_only b.
Proof. by split_engine. Qed.

Lemma get_response_logic b item cid :
  logic (fst (get_response b item cid)) = logic b.
Proof. by split_engine. Qed.

Lemma get_responses_read_only b calls :
  read_only (get_responses b calls) = read_only b.
Proof.
  revert b. induction calls as [|call calls IH]; intros b; [done|].
  simpl. rewrite IH. apply get_response_read_only.
Qed.

Lemma get_responses_logic b calls :
  logic (get_responses b calls) = logic b.
Proof.
  revert b. induction calls as [|call calls IH]; intros b; [done|].
  simpl. rewrite IH. apply get_response_logic.
Qed.

(** ** The store under [statements_add] and [storage_update] *)

Lemma statements_statements_add s c x :
  statements (statements_add s c x) c = statements s c ++ [x].
Proof. unfold statements at 1, statements_add. simpl. by rewrite lookup_insert_eq. Qed.

Lemma statements_statements_add_ne s c c' x :
  c ≠ c' -> statements (statements_add s c x) c' = statements s c'.
Proof.
  intros Hne. unfold statements, statements_add. simpl.
  by rewrite lookup_insert_ne.
Qed.

Lemma statements_storage_update s x c :
  statements (storage_update s x) c = statements s c.
Proof. done. Qed.

Lemma statements_create s c :
  statements (fst (Conversation_objects_create s)) c = statements s c.
Proof.
  unfold statements, Conversation_objects_create. simpl.
  destruct (decide (fresh (dom (conversations_table s)) = c)) as [<-|Hne].
  - by rewrite lookup_insert_eq, default_conversation_fresh.
  - by rewrite lookup_insert_ne.
Qed.

Lemma stored_count_storage_update s x :
  stored_count (storage_update s x) (text x) = S (stored_count s (text x)).
Proof.
  unfold stored_count at 1, storage_update. simpl.
  by rewrite lookup_insert_eq.
Qed.

Lemma stored_count_storage_update_le s x t :
  (stored_count s t ≤ stored_count (storage_update s x) t)%nat.
Proof.
  destruct (decide (text x = t)) as [<-|Hne].
  - rewrite stored_count_storage_update. lia.
  - unfold stored_count, storage_update. simpl. by rewrite lookup_insert_ne.
Qed.




Lemma stored_count_statements_add s c x t :
  stored_count (statements_add s c x) t = stored_count s t.
Proof. done. Qed.

Lemma text_learned statement previous :
  text (learned statement previous) = text statement.
Proof. by destruct previous. Qed.

Lemma link_count_add_response statement previous :
  link_count (add_response statement (mkResponse previous)) previous
  = S (link_count statement previous).
Proof.
  unfold link_count, add_response. simpl.
  destruct (in_response_to statement !! previous) eqn:E; simpl;
    by rewrite lookup_insert_eq.
Qed.


Lemma add_response_changes statement previous :
  in_response_to (add_response statement (mkResponse previous))
  ≠ in_response_to statement.
Proof.
  intros Heq. pose proof (link_count_add_response statement previous) as Hl.
  unfold link_count in Hl. rewrite Heq in Hl. lia.
Qed.

(** ** What one call does, step by step *)

Lemma get_or_create_default_conversation_turns b c :
  statements (storage (fst (get_or_create_default_conversation b))) c
  = statements (storage b) c.
Proof.
  unfold get_or_create_default_conversation.
  destruct (default_conversation b); [done|].
  pose proof (statements_create (storage b) c) as Hc.
  by destruct (Conversation_objects_create (storage b)).
Qed.

Lemma resolve_conversation_turns b cid c :
  statements (storage (fst (resolve_conversation b cid))) c
  = statements (storage b) c.
Proof.
  unfold resolve_conversation.
  repeat case_match; auto using get_or_create_default_conversation_turns.
Qed.

Lemma resolve_conversation_statements b cid :
  statements (storage (fst (resolve_conversation b cid)))
             (snd (resolve_conversation b cid))
  = statements (storage b) (snd (resolve_conversation b cid)).
Proof. apply resolve_conversation_turns. Qed.

Lemma learn_response_result b statement previous conversation :
  snd (learn_response b statement previous conversation) = learned statement previous.
Proof. by split_engine. Qed.

Lemma learn_response_logger b statement previous conversation :
  logger (fst (learn_response b statement previous conversation))
  = logger b ++
    match previous with
    | Some p => [Adding_response (text statement) (text p)]
    | None => []
    end.
Proof. split_engine; by rewrite ?app_nil_r. Qed.

Lemma learn_response_storage b statement previous c :
  storage (fst (learn_response b statement previous (Some c)))
  = if read_only b then storage b
    else statements_add (storage_update (storage b) (learned statement previous))
           c (learned statement previous).
Proof. by split_engine. Qed.

Lemma get_response_storage b item cid :
  let b1 := fst (resolve_conversation b cid) in
  let c := snd (resolve_conversation b cid) in
  let statement := input_statement_of b item in
  let previous := get_last_response_statement (storage b1) c in
  let s := storage (fst (learn_response b1 statement previous (Some c))) in
  storage (fst (get_response b item cid))
  = match MultiLogicAdapter_process (logic b) (generate_base_query (storage b1) c)
            statement with
    | Some response =>
        let r := response_object (learned statement previous) response in
        if read_only b then s else statements_add (statement_save s r) c r
    | None => s
    end.
Proof.
  simpl. unfold get_response, generate_response.
  pose proof (resolve_conversation_logic b cid) as Hl.
  pose proof (resolve_conversation_read_only b cid) as Hr.
  destruct (resolve_conversation b cid) as [b1 c]. simpl in *.
  pose proof (learn_response_read_only b1 (input_statement_of b item)
    (get_last_response_statement (storage b1) c) (Some c)) as Hr'.
  pose proof (learn_response_result b1 (input_statement_of b item)
    (get_last_response_statement (storage b1) c) (Some c)) as Hst.
  destruct (learn_response b1 _ _ _) as [b2 st]. simpl in *. subst st.
  rewrite Hl. case_match; [|done].
  rewrite Hr', Hr. by destruct (read_only b).
Qed.

Lemma get_response_logger b item cid :
  logger (fst (get_response b item cid))
  = logger b ++
    match last (statements (storage b) (snd (resolve_conversation b cid))) with
    | Some p => [Adding_response (text (input_statement_of b item)) (text p)]
    | None => []
    end.
Proof.
  rewrite <- resolve_conversation_statements.
  unfold get_response, generate_response.
  pose proof (resolve_conversation_logger b cid) as Hl.
  destruct (resolve_conversation b cid) as [b1 c]. simpl in *.
  pose proof (learn_response_logger b1 (input_statement_of b item)
    (get_last_response_statement (storage b1) c) (Some c)) as Hg.
  destruct (learn_response b1 _ _ _) as [b2 st]. simpl in *.
  unfold get_last_response_statement in *.
  rewrite <- Hl, <- Hg. repeat case_match; done.
Qed.

(** ** The read-only frame *)

Lemma frozen_refl b : read_only b = true -> frozen b b.
Proof. intros H. split; [done|]. by left. Qed.

Lemma frozen_trans b1 b2 b3 : frozen b1 b2 -> frozen b2 b3 -> frozen b1 b3.
Proof.
  intros [_ H12] [Hro H23]. split; [done|].
  destruct H12 as [[Hs Hd]|(Hd & c & Hc & Hfresh & Hs)].
  - destruct H23 as [[Hs' Hd']|(Hd' & c & Hc & Hfresh & Hs')].
    + left. split; congruence.
    + right. split; [congruence|]. exists c. rewrite <- Hs. by rewrite Hs' at 1.
  - destruct H23 as [[Hs' Hd']|(Hd' & _)]; [|congruence].
    right. split; [done|]. exists c. split; [congruence|]. split; [done|]. congruence.
Qed.

Lemma frozen_statements_table b b' :
  frozen b b' -> statements_table (storage b') = statements_table (storage b).
Proof.
  intros [_ [[-> _]|(_ & c & _ & _ & ->)]]; done.
Qed.

Lemma frozen_conversations b b' id turns :
  frozen b b' ->
  conversations_table (storage b) !! id = Some turns ->
  conversations_table (storage b') !! id = Some turns.
Proof.
  intros [_ [[-> _]|(_ & c & _ & Hfresh & ->)]] Hid; [done|]. simpl.
  rewrite lookup_insert_ne; [done|]. congruence.
Qed.

Lemma frozen_with_default b b' :
  frozen b b' -> is_Some (default_conversation b) -> storage b' = storage b.
Proof.
  intros [_ [[-> _]|(Hd & _)]] [c Hc]; [done|congruence].
Qed.

Lemma frozen_size b b' :
  frozen b b' ->
  (size (conversations_table (storage b'))
   ≤ S (size (conversations_table (storage b))))%nat.
Proof.
  intros [_ [[-> _]|(_ & c & _ & Hfresh & ->)]]; [lia|]. simpl.
  by rewrite map_size_insert_None.
Qed.

Lemma get_or_create_default_conversation_frozen b :
  read_only b = true -> frozen b (fst (get_or_create_default_conversation b)).
Proof.
  intros Hro. unfold get_or_create_default_conversation.
  destruct (default_conversation b) eqn:Hd; simpl.
  - by apply frozen_refl.
  - split; [done|]. right. split; [done|].
    exists (fresh (dom (conversations_table (storage b)))).
    split; [done|]. split; [apply default_conversation_fresh|done].
Qed.

Lemma resolve_conversation_frozen b cid :
  read_only b = true -> frozen b (fst (resolve_conversation b cid)).
Proof.
  intros Hro. unfold resolve_conversation.
  repeat case_match; simpl;
    auto using frozen_refl, get_or_create_default_conversation_frozen.
Qed.

Lemma learn_response_frozen b statement previous conversation :
  read_only b = true ->
  frozen b (fst (learn_response b statement previous conversation)).
Proof.
  intros Hro. destruct conversation as [c|].
  - split; [by rewrite learn_response_read_only|]. left.
    rewrite learn_response_storage, Hro. split; [done|]. by split_engine.
  - pose proof (get_or_create_default_conversation_frozen b Hro) as Hf.
    pose proof (get_or_create_default_conversation_read_only b) as Hr.
    unfold learn_response.
    destruct (get_or_create_default_conversation b) as [b1 c]. simpl in *.
    destruct previous; simpl; rewrite Hr, Hro; simpl;
      (eapply frozen_trans; [exact Hf|]);
      (split; [simpl; congruence|by left]).
Qed.

Lemma get_response_frozen b item cid :
  read_only b = true -> frozen b (fst (get_response b item cid)).
Proof.
  intros Hro.
  pose proof (resolve_conversation_frozen b cid Hro) as Hf.
  pose proof (resolve_conversation_read_only b cid) as Hr.
  unfold get_response, generate_response.
  destruct (resolve_conversation b cid) as [b1 c]. simpl in *.
  rewrite Hro in Hr.
  pose proof (learn_response_frozen b1 (input_statement_of b item)
    (get_last_response_statement (storage b1) c) (Some c) Hr) as Hf'.
  pose proof (learn_response_read_only b1 (input_statement_of b item)
    (get_last_response_statement (storage b1) c) (Some c)) as Hr'.
  destruct (learn_response b1 _ _ _) as [b2 st]. simpl in *.
  rewrite Hr in Hr'. case_match; simpl; [rewrite Hr'|]; by eapply frozen_trans.
Qed.

Lemma get_responses_frozen b calls :
  read_only b = true -> frozen b (get_responses b calls).
Proof.
  revert b. induction calls as [|call calls IH]; intros b Hro.
  - by apply frozen_refl.
  - simpl. eapply frozen_trans; [by apply get_response_frozen|].
    apply IH. by rewrite get_response_read_only.
Qed.

(** ** The selection *)

Lemma Qgtb_true (a b : Q) : Qgtb a b = true <-> (b < a)%Q.
Proof.
  unfold Qgtb. rewrite Qgt_alt.
  destruct (a ?= b)%Q; split; intros; congruence.
Qed.

Lemma Qgtb_false (a b : Q) : Qgtb a b = false <-> (a <= b)%Q.
Proof.
  unfold Qgtb. rewrite Qle_alt.
  destruct (a ?= b)%Q; split; intros; congruence.
Qed.

Lemma select_step_is_Some best r : is_Some (select_step best r).
Proof. destruct best as [b|]; simpl; [case_match|]; eauto. Qed.

Lemma fold_select_step_is_Some results best :
  is_Some best -> is_Some (fold_left select_step results best).
Proof.
  revert best. induction results as [|r results IH]; intros best Hb; [done|].
  simpl. apply IH, select_step_is_Some.
Qed.

Lemma select_is_Some results : results ≠ [] -> is_Some (select results).
Proof.
  destruct results as [|r results]; [done|]. intros _.
  unfold select. simpl. by apply fold_select_step_is_Some.
Qed.

(** The running best comes from the results seen so far. *)
Lemma fold_select_step_elem results best r :
  fold_left select_step results best = Some r -> best = Some r ∨ r ∈ results.
Proof.
  revert best. induction results as [|x results IH]; intros best H; simpl in H.
  - by left.
  - apply IH in H as [H|H]; [|right; by apply elem_of_cons; right].
    destruct best as [b|]; simpl in H.
    + case_match; simplify_eq; [right; apply elem_of_cons|]; by left.
    + simplify_eq. right. apply elem_of_cons. by left.
Qed.

(** A best that nobody beats strictly stays. *)
Lemma fold_select_step_keeps results best :
  Forall (fun r => (snd r <= snd best)%Q) results ->
  fold_left select_step results (Some best) = Some best.
Proof.
  induction 1 as [|r results Hr _ IH]; [done|].
  simpl. apply Qgtb_false in Hr. by rewrite Hr.
Qed.

(** The first result that reaches the highest confidence wins. *)
Lemma select_first_maximum before winner after :
  Forall (fun r => (snd r < snd winner)%Q) before ->
  Forall (fun r => (snd r <= snd winner)%Q) after ->
  select (before ++ winner :: after) = Some winner.
Proof.
  intros Hb Ha. unfold select. rewrite fold_left_app. simpl.
  destruct (fold_left select_step before None) as [b|] eqn:E; simpl.
  - apply fold_select_step_elem in E as [E|E]; [done|].
    rewrite Forall_forall in Hb. apply Hb, Qgtb_true in E. rewrite E.
    by apply fold_select_step_keeps.
  - by apply fold_select_step_keeps.
Qed.

(** The selection is the first result of the highest confidence. *)
Lemma select_least_maximum results :
  match select results with
  | Some winner =>
      exists w,
        results !! w = Some winner ∧
        (forall k r, results !! k = Some r -> (snd r <= snd winner)%Q) ∧
        (forall k r, results !! k = Some r -> (snd r == snd winner)%Q ->
                     (w <= k)%nat)
  | None => results = []
  end.
Proof.
  induction results as [|x results IH] using rev_ind; [done|].
  unfold select in *. rewrite fold_left_app. simpl.
  destruct (fold_left select_step results None) as [best|]; simpl.
  - destruct IH as (w & Hw & Hmax & Hleast).
    pose proof (lookup_lt_Some _ _ _ Hw) as Hlt.
    destruct (Qgtb (snd x) (snd best)) eqn:Hgt.
    + apply Qgtb_true in Hgt. exists (length results). split; [|split].
      * by rewrite lookup_app_r, Nat.sub_diag by lia.
      * intros k r Hk. apply lookup_app_Some in Hk as [Hk|[_ Hk]].
        -- apply Qlt_le_weak. eapply Qle_lt_trans; [by eapply Hmax|done].
        -- apply list_lookup_singleton_Some in Hk as [_ <-]. apply Qle_refl.
      * intros k r Hk Htie.
        apply lookup_app_Some in Hk as [Hk|[Hge _]]; [|lia].
        exfalso. apply (Hmax k r) in Hk. rewrite Htie in Hk.
        by apply Qle_not_lt in Hk.
    + apply Qgtb_false in Hgt. exists w. split; [|split].
      * by rewrite lookup_app_l.
      * intros k r Hk. apply lookup_app_Some in Hk as [Hk|[_ Hk]].
        -- by eapply Hmax.
        -- by apply list_lookup_singleton_Some in Hk as [_ <-].
      * intros k r Hk Htie.
        apply lookup_app_Some in Hk as [Hk|[Hge _]]; [by eapply Hleast|lia].
  - subst results. exists 0%nat. split; [done|]. split.
    + intros [|k] r Hk; simplify_eq/=. apply Qle_refl.
    + intros k r _ _. lia.
Qed.

Lemma evaluate_all_lookup l pool statement k :
  evaluate_all l pool statement !! k
  = (fun adapter : LogicAdapter => adapter statement pool) <$> get_adapters l !! k.
Proof. unfold evaluate_all. apply list_lookup_fmap. Qed.

(** ** The constructor *)

Lemma fold_add_adapter_adapters configured l :
  adapters (fold_left add_adapter configured l) = adapters l ++ configured.
Proof.
  revert l. induction configured as [|a configured IH]; intros l; simpl.
  - by rewrite app_nil_r.
  - rewrite IH. simpl. by rewrite <- app_assoc.
Qed.

Lemma fold_add_adapter_system_adapters configured l :
  system_adapters (fold_left add_adapter configured l) = system_adapters l.
Proof.
  revert l. induction configured as [|a configured IH]; intros l; simpl; [done|].
  by rewrite IH.
Qed.

Lemma ChatBot_init_get_adapters env name kwargs :
  get_adapters (logic (ChatBot_init env name kwargs))
  = default [BestMatch env] (kw_logic_adapters kwargs)
    ++ [NoKnowledgeAdapter (kw_default_response kwargs)].
Proof.
  unfold get_adapters, ChatBot_init. simpl.
  by rewrite fold_add_adapter_adapters, fold_add_adapter_system_adapters.
Qed.

Lemma ChatBot_init_system_adapters env name kwargs :
  system_adapters (logic (ChatBot_init env name kwargs))
  = [NoKnowledgeAdapter (kw_default_response kwargs)].
Proof.
  unfold ChatBot_init. simpl. by rewrite fold_add_adapter_system_adapters.
Qed.

Lemma process_is_Some l pool statement :
  system_adapters l ≠ [] -> is_Some (MultiLogicAdapter_process l pool statement).
Proof.
  intros Hne. unfold MultiLogicAdapter_process. apply fmap_is_Some.
  destruct (forallb _ _); apply select_is_Some; unfold evaluate;
    destruct (system_adapters l); try done;
    by destruct (adapters l).
Qed.

Lemma get_response_result b item cid :
  is_Some (MultiLogicAdapter_process (logic b)
             (generate_base_query (storage (fst (resolve_conversation b cid)))
                (snd (resolve_conversation b cid)))
             (input_statement_of b item)) ->
  is_Some (snd (get_response b item cid)).
Proof.
  unfold get_response, generate_response.
  pose proof (resolve_conversation_logic b cid) as Hl.
  destruct (resolve_conversation b cid) as [b1 c]. simpl in *.
  destruct (learn_response b1 _ _ _) as [b2 st]. rewrite Hl.
  intros [r ->]. simpl. eauto.
Qed.

(** ** The default conversation *)

(** C9: [get_or_create_default_conversation] creates at most one default
    conversation per bot.  The first call caches the conversation it
    returns (creating it, empty, under an unused id, when none was cached);
    every later call returns the same conversation and leaves the bot, and
    so the store, as the first call left it. *)
Theorem default_conversation_created_once (b : ChatBot) (n : nat) :
  let first := get_or_create_default_conversation b in
  default_conversation (fst first) = Some (snd first) ∧
  get_or_create_default_conversation (fst first) = first ∧
  get_or_create_default_conversation (default_conversation_calls n (fst first)) = first ∧
  (size (conversations_table (storage (default_conversation_calls (S n) b)))
   ≤ S (size (conversations_table (storage b))))%nat ∧
  match default_conversation b with
  | Some c => first = (b, c)
  | None =>
      conversations_table (storage b) !! snd first = None ∧
      conversations_table (storage (fst first))
      = <[snd first := []]> (conversations_table (storage b))
  end.
Proof.
  intros first.
  assert (Hcached : default_conversation (fst first) = Some (snd first))
    by apply get_or_create_default_conversation_cached.
  assert (Hagain : get_or_create_default_conversation (fst first) = first).
  { rewrite (get_or_create_default_conversation_hit _ _ Hcached).
    by destruct first. }
  assert (Hiter : forall k, default_conversation_calls k (fst first) = fst first).
  { induction k as [|k IH]; [done|].
    unfold default_conversation_calls in *. simpl. by rewrite IH, Hagain. }
  assert (Hshift : forall k, default_conversation_calls (S k) b
                             = default_conversation_calls k (fst first)).
  { induction k as [|k IH]; [done|].
    unfold default_conversation_calls in *. simpl in *. by rewrite IH. }
  split; [done|]. split; [done|]. split; [by rewrite Hiter|].
  split.
  - rewrite Hshift, Hiter. subst first.
    unfold get_or_create_default_conversation, Conversation_objects_create.
    destruct (default_conversation b); simpl; [lia|].
    rewrite map_size_insert_None; [lia|apply default_conversation_fresh].
  - subst first.
    unfold get_or_create_default_conversation, Conversation_objects_create.
    destruct (default_conversation b); simpl; [done|].
    split; [apply default_conversation_fresh|done].
Qed.

(** ** The learning recorder *)

(** C10: with a previous statement, [learn_response] calls
    [statement.add_response] whatever the read-only flag: the statement it
    leaves in memory carries the link to the previous text, with its count
    one higher, so its response set has changed.  Only the store is
    guarded: read-only, the persisted statements and the turns of the
    conversation stay as they were; otherwise the statement is persisted
    and appended. *)
Theorem learn_response_adds_response_in_memory
    (b : ChatBot) (statement previous : Statement) (conversation : option Z) :
  let result := learn_response b statement (Some previous) conversation in
  snd result = add_response statement (mkResponse (text previous)) ∧
  link_count (snd result) (text previous) = S (link_count statement (text previous)) ∧
  in_response_to (snd result) ≠ in_response_to statement ∧
  logger (fst result)
  = logger b ++ [Adding_response (text statement) (text previous)] ∧
  if read_only b then frozen b (fst result)
  else
    stored_count (storage (fst result)) (text statement)
    = S (stored_count (storage b) (text statement)) ∧
    exists c, last (statements (storage (fst result)) c) = Some (snd result).
Proof.
  intros result. subst result.
  rewrite learn_response_result, learn_response_logger.
  split; [done|]. split; [apply link_count_add_response|].
  split; [apply add_response_changes|]. split; [done|].
  destruct (read_only b) eqn:Hro; [by apply learn_response_frozen|].
  unfold learn_response.
  pose proof (get_or_create_default_conversation_read_only b) as Hr.
  pose proof (get_or_create_default_conversation_statements b) as Hs.
  destruct conversation as [c|];
    [|destruct (get_or_create_default_conversation b) as [b1 c]; simpl in *];
    simpl; rewrite ?Hr, Hro; simpl.
  - split.
    + unfold stored_count. simpl. by rewrite lookup_insert_eq.
    + exists c. unfold statements at 1. simpl.
      rewrite lookup_insert_eq. simpl. apply last_snoc.
  - split.
    + unfold stored_count. simpl. by rewrite lookup_insert_eq, Hs.
    + exists c. unfold statements at 1. simpl.
      rewrite lookup_insert_eq. simpl. apply last_snoc.
Qed.



(** ** The turns of the conversation after a call *)

Lemma get_response_statements b item cid :
  let c := snd (resolve_conversation b cid) in
  let statement := input_statement_of b item in
  let before := statements (storage b) c in
  let response :=
    MultiLogicAdapter_process (logic b)
      (generate_base_query (storage (fst (resolve_conversation b cid))) c)
      statement in
  statements (storage (fst (get_response b item cid))) c
  = if read_only b then before
    else before ++ learned statement (last before)
         :: option_list (response_object (learned statement (last before))
                           <$> response).
Proof.
  simpl. rewrite get_response_storage, learn_response_storage.
  rewrite resolve_conversation_read_only.
  unfold get_last_response_statement, statement_save.
  rewrite resolve_conversation_statements.
  destruct (read_only b).
  - case_match; apply resolve_conversation_statements.
  - case_match; simpl;
      rewrite ?statements_statements_add, ?statements_storage_update,
        ?statements_statements_add, ?statements_storage_update,
        resolve_conversation_statements, <- ?app_assoc; done.
Qed.

Lemma get_response_statements_other b item cid c' :
  c' ≠ snd (resolve_conversation b cid) ->
  statements (storage (fst (get_response b item cid))) c' = statements (storage b) c'.
Proof.
  intros Hne. rewrite get_response_storage, learn_response_storage.
  rewrite resolve_conversation_read_only. unfold statement_save.
  destruct (read_only b); repeat case_match;
    rewrite ?statements_statements_add_ne, ?statements_storage_update,
      ?statements_statements_add_ne, ?statements_storage_update by done;
    apply resolve_conversation_turns.
Qed.

Lemma get_response_stored_count b item cid :
  read_only b = false ->
  (stored_count (storage b) (text (input_statement_of b item))
   < stored_count (storage (fst (get_response b item cid)))
       (text (input_statement_of b item)))%nat.
Proof.
  intros Hro. rewrite get_response_storage, learn_response_storage.
  rewrite resolve_conversation_read_only, Hro. unfold statement_save.
  set (b1 := fst (resolve_conversation b cid)).
  set (st := learned _ _).
  assert (Hst : text (input_statement_of b item) = text st)
    by (subst st; by rewrite text_learned).
  assert (Hb1 : stored_count (storage b1) (text st)
                = stored_count (storage b) (text st)).
  { subst b1. unfold stored_count, resolve_conversation.
    repeat case_match; simplify_eq/=;
      rewrite ?get_or_create_default_conversation_statements in *;
      simplify_eq/=; done. }
  rewrite Hst, <- Hb1. case_match.
  - rewrite stored_count_statements_add.
    eapply Nat.lt_le_trans; [|apply stored_count_storage_update_le].
    rewrite stored_count_statements_add, stored_count_storage_update. lia.
  - rewrite stored_count_statements_add, stored_count_storage_update. lia.
Qed.

(** ** Read-only mode *)

(** C1, as stated, fails: the first call of a read-only bot creates the
    default conversation in the store. *)
Lemma read_only_call_creates_conversation :
  read_only Demo.frozen_bot = true ∧
  conversations_table (storage Demo.frozen_bot) !! 0 = None ∧
  conversations_table (storage (get_responses Demo.frozen_bot [("Hi"%string, None)])) !! 0
  = Some [].
Proof. repeat split; vm_compute; reflexivity. Qed.

(** C1, amended: in read-only mode, calls of [get_response] one after the
    other, and [learn_response], leave the persisted statements (occurrence
    counts and response links) and the turns of every existing conversation
    as they were.  The store can change in one way only: either it is what
    it was, or the bot had no default conversation and the store differs
    by exactly one new conversation, empty, under an id not in use, which
    is now the default conversation of the bot.  With a default
    conversation in place the store does not change at all. *)
Theorem read_only_freezes_corpus (b : ChatBot) (calls : list (string * option Z)) :
  read_only b = true ->
  let b' := get_responses b calls in
  statements_table (storage b') = statements_table (storage b) ∧
  (forall id turns,
      conversations_table (storage b) !! id = Some turns ->
      conversations_table (storage b') !! id = Some turns) ∧
  (size (conversations_table (storage b'))
   ≤ S (size (conversations_table (storage b))))%nat ∧
  (is_Some (default_conversation b) -> storage b' = storage b) ∧
  ((storage b' = storage b ∧ default_conversation b' = default_conversation b) ∨
   (default_conversation b = None ∧
    exists c,
      default_conversation b' = Some c ∧
      conversations_table (storage b) !! c = None ∧
      storage b' =
        {| statements_table := statements_table (storage b);
           conversations_table := <[c := []]> (conversations_table (storage b)) |})) ∧
  forall statement previous conversation,
    let b'' := fst (learn_response b statement previous conversation) in
    statements_table (storage b'') = statements_table (storage b) ∧
    (forall id turns,
        conversations_table (storage b) !! id = Some turns ->
        conversations_table (storage b'') !! id = Some turns) ∧
    (size (conversations_table (storage b''))
     ≤ S (size (conversations_table (storage b))))%nat ∧
    (is_Some (default_conversation b) -> storage b'' = storage b) ∧
    (is_Some conversation -> storage b'' = storage b) ∧
    ((storage b'' = storage b ∧ default_conversation b'' = default_conversation b) ∨
     (default_conversation b = None ∧
      exists c,
        default_conversation b'' = Some c ∧
        conversations_table (storage b) !! c = None ∧
        storage b'' =
          {| statements_table := statements_table (storage b);
             conversations_table := <[c := []]> (conversations_table (storage b)) |})).
Proof.
  intros Hro b'.
  pose proof (get_responses_frozen b calls Hro) as Hf.
  split; [by apply frozen_statements_table|].
  split; [intros id turns; by apply frozen_conversations|].
  split; [by apply frozen_size|].
  split; [by apply frozen_with_default|].
  split; [by destruct Hf|].
  intros statement previous conversation b''.
  pose proof (learn_response_frozen b statement previous conversation Hro) as Hl.
  split; [by apply frozen_statements_table|].
  split; [intros id turns; by apply frozen_conversations|].
  split; [by apply frozen_size|].
  split; [by apply frozen_with_default|].
  split; [|by destruct Hl].
  intros [c ->]. subst b''. by rewrite learn_response_storage, Hro.
Qed.

Lemma read_only_freezes_corpus_witness :
  statements_table
    (storage (get_responses Demo.frozen_bot
                [("Hi"%string, None); ("How are you?"%string, Some 7)]))
  = statements_table (storage Demo.frozen_bot).
Proof.
  destruct (read_only_freezes_corpus Demo.frozen_bot
              [("Hi"%string, None); ("How are you?"%string, Some 7)] eq_refl)
    as [H _].
  exact H.
Defined.

(** C3, as stated, fails: after a call of a read-only bot the conversation
    holds neither the input statement nor the response. *)
Lemma read_only_call_appends_nothing :
  read_only Demo.frozen_bot = true ∧
  snd (get_response Demo.frozen_bot "Hi" None) = Some Demo.sorry ∧
  snd (resolve_conversation Demo.frozen_bot None) = 0 ∧
  conversations_table (storage (fst (get_response Demo.frozen_bot "Hi" None)))
  = {[0 := []]}.
Proof. repeat split; vm_compute; reflexivity. Qed.

(** C3, amended: both appends of [get_response] are guarded by the
    read-only flag.  Read-only, the turns of the conversation of the call
    are after the call what they were before it; otherwise the input
    statement, as learned, and then the response object are appended to
    them (when the response is the input statement object itself, it is
    appended as learned too, link included).  The other conversations keep
    their turns in both modes. *)
Theorem read_only_guards_conversation_appends
    (b : ChatBot) (item : string) (cid : option Z) :
  let c := snd (resolve_conversation b cid) in
  let statement := input_statement_of b item in
  let before := statements (storage b) c in
  let response :=
    MultiLogicAdapter_process (logic b)
      (generate_base_query (storage (fst (resolve_conversation b cid))) c)
      statement in
  let b' := fst (get_response b item cid) in
  statements (storage b') c
  = (if read_only b then before
     else before ++ learned statement (last before)
          :: option_list (response_object (learned statement (last before))
                            <$> response)) ∧
  forall c', c' ≠ c -> statements (storage b') c' = statements (storage b) c'.
Proof.
  simpl. split; [apply get_response_statements|].
  intros c' Hne. by apply get_response_statements_other.
Qed.

(** A strategy that hands the input statement object back: the response
    appended, persisted and returned is the input as learned, with the link
    to the last turn. *)
Example echoed_response_is_the_learned_input :
  let learned_input := add_response (mkStatement "How are you?") (mkResponse "Hi") in
  statements
    (storage (get_responses Echo.bot [("Hi"%string, None);
                                      ("How are you?"%string, None)])) 0
  = [Demo.hi; Demo.hi; learned_input; learned_input] ∧
  snd (get_response (fst (get_response Echo.bot "Hi" None)) "How are you?" None)
  = Some learned_input.
Proof. split; vm_compute; reflexivity. Qed.

(** ** The conversation of a call *)

(** C2, as stated, fails: a call with the unknown id 7 creates no
    conversation under 7; the turn goes to the default conversation. *)
Lemma unknown_id_creates_no_conversation :
  conversations_get (storage Demo.bot) 7 = None ∧
  conversations_table (storage (fst (get_response Demo.bot "Hi" (Some 7)))) !! 7 = None ∧
  default_conversation (fst (get_response Demo.bot "Hi" (Some 7))) = Some 0 ∧
  statements (storage (fst (get_response Demo.bot "Hi" (Some 7)))) 0
  = [Demo.hi; Demo.sorry].
Proof. repeat split; vm_compute; reflexivity. Qed.

(** C2, amended: when a conversation id is supplied and no conversation
    exists for it, [get_response] falls back to the default conversation,
    created and cached if the bot had none; the turn is recorded under the
    default conversation when the engine is not read-only, and no
    conversation is made for the supplied id. *)
Theorem unknown_id_falls_back_to_default
    (b : ChatBot) (item : string) (conversation_id : Z) :
  conversations_get (storage b) conversation_id = None ->
  let default := snd (get_or_create_default_conversation b) in
  let b' := fst (get_response b item (Some conversation_id)) in
  resolve_conversation b (Some conversation_id)
  = get_or_create_default_conversation b ∧
  default_conversation b' = Some default ∧
  (default ≠ conversation_id ->
   conversations_table (storage b') !! conversation_id = None) ∧
  (read_only b = false ->
   exists rest,
     statements (storage b') default
     = statements (storage b) default
       ++ learned (input_statement_of b item) (last (statements (storage b) default))
       :: rest).
Proof.
  intros Hget default b'.
  assert (Hres : resolve_conversation b (Some conversation_id)
                 = get_or_create_default_conversation b).
  { unfold resolve_conversation. case_match; [|done]. simpl. by rewrite Hget. }
  split; [done|].
  pose proof (get_response_statements b item (Some conversation_id)) as Hturns.
  pose proof (get_response_storage b item (Some conversation_id)) as Hsto.
  simpl in Hturns, Hsto. rewrite Hres in Hturns, Hsto. fold default in Hturns, Hsto.
  split; [|split].
  - subst b'. unfold get_response, generate_response. rewrite Hres.
    pose proof (get_or_create_default_conversation_cached b) as Hc.
    fold default in Hc.
    destruct (get_or_create_default_conversation b) as [b1 c]. simpl in *.
    assert (Hd : default_conversation
                   (fst (learn_response b1 (input_statement_of b item)
                           (get_last_response_statement (storage b1) c) (Some c)))
                 = Some default) by (by split_engine).
    destruct (learn_response b1 _ _ _) as [b2 st]. simpl in *.
    repeat case_match; done.
  - intros Hne. subst b'. rewrite Hsto, learn_response_storage.
    assert (Hb1 : conversations_table
                    (storage (fst (get_or_create_default_conversation b)))
                  !! conversation_id = None).
    { unfold conversations_get in Hget.
      destruct (conversations_table (storage b) !! conversation_id) eqn:E; [done|].
      subst default. revert Hne.
      unfold get_or_create_default_conversation, Conversation_objects_create.
      destruct (default_conversation b); simpl; [done|].
      intros Hne. by rewrite lookup_insert_ne. }
    rewrite get_or_create_default_conversation_read_only.
    unfold statement_save.
    destruct (read_only b); repeat case_match; simpl;
      rewrite ?lookup_insert_ne by done; done.
  - intros Hro. rewrite Hro in Hturns. eauto.
Qed.

Lemma unknown_id_falls_back_to_default_witness :
  resolve_conversation Demo.bot (Some 7)
  = get_or_create_default_conversation Demo.bot.
Proof.
  destruct (unknown_id_falls_back_to_default Demo.bot "Hi" 7 eq_refl) as [H _].
  exact H.
Defined.

(** ** Learning inside [get_response] *)

(** C6: in every call of [get_response] the statement learned as a response
    is the input statement, and the statement it is linked to is the last
    turn the conversation held before the call appended anything: the log
    names the two texts, the link from that text is one higher on the
    learned statement, and, when the engine is not read-only, the learned
    statement is the first turn appended after the old ones. *)
Theorem get_response_learns_input_after_last_turn
    (b : ChatBot) (item : string) (cid : option Z) :
  let c := snd (resolve_conversation b cid) in
  let statement := input_statement_of b item in
  let before := statements (storage b) c in
  let b' := fst (get_response b item cid) in
  get_last_response_statement (storage (fst (resolve_conversation b cid))) c
  = last before ∧
  text (learned statement (last before)) = text statement ∧
  match last before with
  | Some previous =>
      logger b' = logger b ++ [Adding_response (text statement) (text previous)] ∧
      link_count (learned statement (last before)) (text previous)
      = S (link_count statement (text previous))
  | None => logger b' = logger b ∧ learned statement (last before) = statement
  end ∧
  (read_only b = true ∨
   exists rest,
     statements (storage b') c = before ++ learned statement (last before) :: rest).
Proof.
  simpl.
  split; [unfold get_last_response_statement;
          by rewrite resolve_conversation_statements|].
  split; [apply text_learned|].
  split.
  - rewrite get_response_logger.
    destruct (last _) as [previous|]; simpl.
    + split; [done|apply link_count_add_response].
    + by rewrite app_nil_r.
  - rewrite get_response_statements.
    destruct (read_only b); [by left|right; eauto].
Qed.

(** ** The fallback and the tie-break *)

(** C4: a bot made by the constructor always has the no-knowledge strategy
    among its strategies, so whatever the keyword arguments, the calls made
    before and the input, [get_response] returns a response. *)
Theorem get_response_never_absent (env : Modules) (name : string) (kwargs : Kwargs)
    (calls : list (string * option Z)) (item : string) (cid : option Z) :
  is_Some (snd (get_response (get_responses (ChatBot_init env name kwargs) calls)
                  item cid)) ∧
  NoKnowledgeAdapter (kw_default_response kwargs)
  ∈ system_adapters (logic (get_responses (ChatBot_init env name kwargs) calls)).
Proof.
  split.
  - apply get_response_result, process_is_Some.
    by rewrite get_responses_logic, ChatBot_init_system_adapters.
  - rewrite get_responses_logic. unfold ChatBot_init. simpl.
    rewrite fold_add_adapter_system_adapters. simpl. apply list_elem_of_here.
Qed.

(** C7, as stated, fails: two configured strategies tie at exactly 0, and
    the selector returns the response of the fallback, which comes after
    both, not the result of the earliest of them. *)
Lemma zero_tie_goes_to_the_fallback :
  get_adapters (logic Echo.unsure_bot) !! 0%nat = Some Echo.unsure_good ∧
  get_adapters (logic Echo.unsure_bot) !! 1%nat = Some Echo.unsure_fine ∧
  (snd (Echo.unsure_good Demo.hi []) == snd (Echo.unsure_fine Demo.hi []))%Q ∧
  MultiLogicAdapter_process (logic Echo.unsure_bot) [] Demo.hi
  = Some (Other_statement Demo.sorry) ∧
  fst (Echo.unsure_good Demo.hi []) ≠ Other_statement Demo.sorry.
Proof. repeat split; try reflexivity. discriminate. Qed.

(** C7, amended: when some configured strategy returns a confidence other
    than 0, the selector returns a result of the highest confidence and,
    among the strategies tied exactly at that confidence, the one that
    comes earliest in the configured order, the fallback counting last: of
    two strategies with exactly equal confidence the later one never wins.
    When every configured strategy returns confidence 0, the response of the
    fallback is used.  The selection depends only on the results the
    strategies return, in their order: configurations that return the same
    results select the same response. *)
Theorem tie_goes_to_the_earliest_strategy (l : MultiLogicAdapter)
    (pool : list Statement) (statement : Statement) :
  let configured := evaluate (adapters l) pool statement in
  let fallback := evaluate (system_adapters l) pool statement in
  let results := evaluate_all l pool statement in
  (if forallb no_opinion configured
   then MultiLogicAdapter_process l pool statement = fst <$> select fallback
   else
     exists w winner,
       results !! w = Some winner ∧
       MultiLogicAdapter_process l pool statement = Some (fst winner) ∧
       (forall k r, results !! k = Some r -> (snd r <= snd winner)%Q) ∧
       (forall k r, results !! k = Some r -> (snd r == snd winner)%Q ->
                    (w <= k)%nat) ∧
       (forall i j earlier later,
           (i < j)%nat ->
           results !! i = Some earlier -> results !! j = Some later ->
           (snd earlier == snd later)%Q ->
           w ≠ j)) ∧
  forall l',
    evaluate (adapters l') pool statement = configured ->
    evaluate (system_adapters l') pool statement = fallback ->
    MultiLogicAdapter_process l' pool statement
    = MultiLogicAdapter_process l pool statement.
Proof.
  simpl. split.
  - unfold MultiLogicAdapter_process.
    destruct (forallb no_opinion (evaluate (adapters l) pool statement)) eqn:Hzero;
      [done|].
    assert (Hall : evaluate_all l pool statement
                   = evaluate (adapters l) pool statement
                     ++ evaluate (system_adapters l) pool statement).
    { unfold evaluate_all, evaluate, get_adapters. apply fmap_app. }
    rewrite <- Hall.
    pose proof (select_least_maximum (evaluate_all l pool statement)) as Hsel.
    destruct (select (evaluate_all l pool statement)) as [winner|].
    + destruct Hsel as (w & Hw & Hmax & Hleast).
      exists w, winner. split; [done|]. split; [done|]. split; [done|].
      split; [done|].
      intros i j earlier later Hij Hi Hj Htie ->.
      assert (later = winner) as -> by congruence.
      specialize (Hleast i earlier Hi Htie). lia.
    + rewrite Hall in Hsel.
      destruct (evaluate (adapters l) pool statement); [done|done].
  - intros l' Hc Hf. unfold MultiLogicAdapter_process. by rewrite Hc, Hf.
Qed.

(** The tie of the design document: two strategies at 0.75, the earlier
    one wins. *)
Example tie_at_three_quarters :
  MultiLogicAdapter_process (logic Demo.tied_bot) [] Demo.hi
  = Some (Other_statement (mkStatement "I am good")).
Proof. reflexivity. Qed.

(** ** The default of the read-only flag *)

(** C8: a bot constructed without the [read_only] keyword argument has
    [read_only] false, and stays so; every call of [get_response] then
    performs the learning writes: the persisted occurrence count of the
    input text grows, the input statement as learned and the response are
    appended to the conversation, and the response is persisted. *)
Theorem read_only_defaults_to_False (env : Modules) (name : string) (kwargs : Kwargs)
    (calls : list (string * option Z)) (item : string) (cid : option Z) :
  kw_read_only kwargs = None ->
  let b := get_responses (ChatBot_init env name kwargs) calls in
  let statement := input_statement_of b item in
  let c := snd (resolve_conversation b cid) in
  let before := statements (storage b) c in
  let b' := fst (get_response b item cid) in
  read_only (ChatBot_init env name kwargs) = false ∧
  read_only b = false ∧
  (stored_count (storage b) (text statement)
   < stored_count (storage b') (text statement))%nat ∧
  exists response,
    statements (storage b') c
    = before ++ [learned statement (last before); response] ∧
    is_Some (statements_table (storage b') !! text response).
Proof.
  intros Hkw b statement c before b'.
  assert (Hro0 : read_only (ChatBot_init env name kwargs) = false)
    by (unfold ChatBot_init; simpl; by rewrite Hkw).
  assert (Hro : read_only b = false)
    by (subst b; by rewrite get_responses_read_only).
  split; [done|]. split; [done|].
  split; [by apply get_response_stored_count|].
  assert (Hsome : is_Some (MultiLogicAdapter_process (logic b)
            (generate_base_query (storage (fst (resolve_conversation b cid))) c)
            statement)).
  { apply process_is_Some. subst b.
    by rewrite get_responses_logic, ChatBot_init_system_adapters. }
  destruct Hsome as [response Hresponse].
  exists (response_object (learned statement (last before)) response). split.
  - subst b' c before statement.
    rewrite get_response_statements, Hro, Hresponse. done.
  - subst b' c statement. rewrite get_response_storage, Hresponse, Hro.
    unfold get_last_response_statement.
    rewrite resolve_conversation_statements. fold before.
    unfold statement_save, statements_add, storage_update. simpl.
    rewrite lookup_insert_eq. eauto.
Qed.

Lemma read_only_defaults_to_False_witness :
  read_only (ChatBot_init Demo.env "demo" (Demo.kwargs None)) = false.
Proof.
  destruct (read_only_defaults_to_False Demo.env "demo" (Demo.kwargs None)
              [] "Hi" None eq_refl) as [H _].
  exact H.
Defined.

(** ** Scenarios of the design document *)

(** Empty corpus, only the fallback configured: any input yields the
    default response. *)
Example fallback_on_empty_corpus (item : string) :
  snd (get_response Demo.bot item None) = Some Demo.sorry.
Proof. reflexivity. Qed.

(** Without the fallback, and without any strategy, there is no response:
    the guarantee does come from the constructor. *)
Example no_strategy_no_response :
  MultiLogicAdapter_process MultiLogicAdapter_init [] Demo.hi = None.
Proof. reflexivity. Qed.

(** Two calls in a row: the second input is learned as a response to the
    last turn of the conversation, which is the bot's answer to the
    first. *)
Example second_input_answers_the_last_turn :
  statements_table
    (storage (get_responses Demo.bot [("Hi"%string, None);
                                      ("How are you?"%string, None)]))
  !! "How are you?"
  = Some {| text := "How are you?"; occurrence_count := 1;
            in_response_to := {["I don't understand" := 1%nat]} |}.
Proof. vm_compute. reflexivity. Qed.


(** * Further properties of the engine *)

(** ** Where the conversation of a call comes from *)

Lemma learn_response_default_conversation b statement previous c :
  default_conversation (fst (learn_response b statement previous (Some c)))
  = default_conversation b.
Proof. by split_engine. Qed.

Lemma resolve_conversation_cached b cid d :
  default_conversation b = Some d -> fst (resolve_conversation b cid) = b.
Proof.
  intros Hd. unfold resolve_conversation.
  rewrite (get_or_create_default_conversation_hit _ _ Hd).
  repeat case_match; done.
Qed.

(** The conversation of a call is one the store holds, or the default. *)
Lemma resolve_conversation_origin b cid :
  (is_Some (conversations_table (storage b) !! snd (resolve_conversation b cid))
   ∧ fst (resolve_conversation b cid) = b)
  ∨ resolve_conversation b cid = get_or_create_default_conversation b.
Proof.
  unfold resolve_conversation. destruct (truthy_id cid); [|by right].
  destruct cid as [z|]; simpl; [|by right].
  unfold conversations_get.
  destruct (conversations_table (storage b) !! z) eqn:E; [|by right].
  left. simpl. rewrite E. eauto.
Qed.

Lemma get_or_create_default_conversation_table b id :
  id ≠ snd (get_or_create_default_conversation b) ->
  conversations_table (storage (fst (get_or_create_default_conversation b))) !! id
  = conversations_table (storage b) !! id.
Proof.
  unfold get_or_create_default_conversation, Conversation_objects_create.
  destruct (default_conversation b); simpl; [done|].
  intros Hne. by rewrite lookup_insert_ne.
Qed.

Lemma get_or_create_default_conversation_keeps b id :
  is_Some (conversations_table (storage b) !! id) ->
  is_Some (conversations_table
             (storage (fst (get_or_create_default_conversation b))) !! id).
Proof.
  unfold get_or_create_default_conversation, Conversation_objects_create.
  destruct (default_conversation b); simpl; [done|].
  intros Hid. rewrite lookup_insert. case_decide; eauto.
Qed.

Lemma resolve_conversation_table b cid id :
  id ≠ snd (resolve_conversation b cid) ->
  conversations_table (storage (fst (resolve_conversation b cid))) !! id
  = conversations_table (storage b) !! id.
Proof.
  destruct (resolve_conversation_origin b cid) as [[_ ->]| ->]; [done|].
  apply get_or_create_default_conversation_table.
Qed.

Lemma resolve_conversation_keeps b cid id :
  is_Some (conversations_table (storage b) !! id) ->
  is_Some (conversations_table (storage (fst (resolve_conversation b cid))) !! id).
Proof.
  destruct (resolve_conversation_origin b cid) as [[_ ->]| ->]; [done|].
  apply get_or_create_default_conversation_keeps.
Qed.

Lemma get_response_default_conversation b item cid :
  default_conversation (fst (get_response b item cid))
  = default_conversation (fst (resolve_conversation b cid)).
Proof.
  unfold get_response, generate_response.
  destruct (resolve_conversation b cid) as [b1 c]. simpl.
  pose proof (learn_response_default_conversation b1 (input_statement_of b item)
    (get_last_response_statement (storage b1) c) c) as Hd.
  destruct (learn_response b1 _ _ _) as [b2 st]. simpl in *.
  repeat case_match; done.
Qed.

(** The conversation table after a call, off the conversation of the call. *)
Lemma get_response_table_ne b item cid id :
  id ≠ snd (resolve_conversation b cid) ->
  conversations_table (storage (fst (get_response b item cid))) !! id
  = conversations_table (storage b) !! id.
Proof.
  intros Hne. rewrite get_response_storage, learn_response_storage.
  rewrite resolve_conversation_read_only. unfold statement_save.
  rewrite <- (resolve_conversation_table b cid id Hne).
  destruct (read_only b); repeat case_match; simpl;
    rewrite ?lookup_insert_ne by done; done.
Qed.

Lemma get_response_table_keeps b item cid id :
  is_Some (conversations_table (storage b) !! id) ->
  is_Some (conversations_table (storage (fst (get_response b item cid))) !! id).
Proof.
  intros Hid. apply (resolve_conversation_keeps b cid) in Hid.
  rewrite get_response_storage, learn_response_storage.
  rewrite resolve_conversation_read_only. unfold statement_save.
  destruct (read_only b); repeat case_match; simpl;
    rewrite ?lookup_insert; repeat case_decide; eauto.
Qed.

Lemma get_response_default_kept b item cid d :
  default_conversation b = Some d ->
  default_conversation (fst (get_response b item cid)) = Some d.
Proof.
  intros Hd. rewrite get_response_default_conversation.
  by rewrite (resolve_conversation_cached _ _ _ Hd).
Qed.

(** A conversation the call brings into the table is the default one. *)
Lemma get_response_table_new b item cid id :
  is_Some (conversations_table (storage (fst (get_response b item cid))) !! id) ->
  is_Some (conversations_table (storage b) !! id)
  ∨ default_conversation (fst (get_response b item cid)) = Some id.
Proof.
  intros Hid.
  destruct (decide (id = snd (resolve_conversation b cid))) as [->|Hne].
  - destruct (resolve_conversation_origin b cid) as [[Hc _]|Heq]; [by left|].
    right. rewrite get_response_default_conversation, Heq.
    apply get_or_create_default_conversation_cached.
  - left. by rewrite <- (get_response_table_ne b item cid id Hne).
Qed.

Lemma resolve_conversation_statements_table b cid :
  statements_table (storage (fst (resolve_conversation b cid)))
  = statements_table (storage b).
Proof.
  destruct (resolve_conversation_origin b cid) as [[_ ->]| ->]; [done|].
  apply get_or_create_default_conversation_statements.
Qed.

Lemma storage_update_kept s x t :
  is_Some (statements_table s !! t) ->
  is_Some (statements_table (storage_update s x) !! t).
Proof.
  intros Ht. unfold storage_update. simpl.
  rewrite lookup_insert. case_decide; eauto.
Qed.

Lemma get_response_statement_kept b item cid t :
  is_Some (statements_table (storage b) !! t) ->
  is_Some (statements_table (storage (fst (get_response b item cid))) !! t).
Proof.
  rewrite <- (resolve_conversation_statements_table b cid).
  intros Ht. rewrite get_response_storage, learn_response_storage.
  unfold statement_save.
  destruct (read_only _); repeat case_match;
    unfold statements_add, storage_update; simpl;
    rewrite ?lookup_insert; repeat case_decide; eauto.
Qed.

Lemma stored_count_turn s x c t :
  (stored_count s t ≤ stored_count (statements_add (storage_update s x) c x) t)%nat.
Proof.
  rewrite (stored_count_statements_add (storage_update s x) c x t).
  apply stored_count_storage_update_le.
Qed.

Lemma get_response_stored_count_le b item cid t :
  (stored_count (storage b) t
   ≤ stored_count (storage (fst (get_response b item cid))) t)%nat.
Proof.
  assert (Hb1 : stored_count (storage (fst (resolve_conversation b cid))) t
                = stored_count (storage b) t).
  { unfold stored_count. by rewrite resolve_conversation_statements_table. }
  rewrite <- Hb1, get_response_storage, learn_response_storage.
  rewrite resolve_conversation_read_only. unfold statement_save.
  destruct (read_only b); repeat case_match; try lia.
  - etrans; [apply stored_count_turn|apply stored_count_turn].
  - apply stored_count_turn.
Qed.

Lemma get_response_statements_prefix b item cid c :
  statements (storage b) c
  `prefix_of` statements (storage (fst (get_response b item cid))) c.
Proof.
  destruct (decide (c = snd (resolve_conversation b cid))) as [->|Hne].
  - rewrite get_response_statements.
    destruct (read_only b); [done|]. by eexists.
  - by rewrite get_response_statements_other.
Qed.

Lemma get_responses_default_kept b calls d :
  default_conversation b = Some d ->
  default_conversation (get_responses b calls) = Some d.
Proof.
  revert b. induction calls as [|call calls IH]; intros b Hd; [done|].
  simpl. apply IH. by apply get_response_default_kept.
Qed.

Lemma get_responses_table_keeps b calls id :
  is_Some (conversations_table (storage b) !! id) ->
  is_Some (conversations_table (storage (get_responses b calls)) !! id).
Proof.
  revert b. induction calls as [|call calls IH]; intros b Hid; [done|].
  simpl. by apply IH, get_response_table_keeps.
Qed.

Lemma get_responses_table_new b calls id :
  is_Some (conversations_table (storage (get_responses b calls)) !! id) ->
  is_Some (conversations_table (storage b) !! id)
  ∨ default_conversation (get_responses b calls) = Some id.
Proof.
  revert b. induction calls as [|call calls IH]; intros b Hid; [by left|].
  simpl in *. apply IH in Hid as [Hid|Hid]; [|by right].
  apply get_response_table_new in Hid as [Hid|Hid]; [by left|].
  right. by apply get_responses_default_kept.
Qed.

Lemma get_response_input b item cid :
  input (fst (get_response b item cid)) = input b.
Proof. by split_engine. Qed.

Lemma get_response_output b item cid :
  output (fst (get_response b item cid)) = output b.
Proof. by split_engine. Qed.

Lemma get_response_preprocessors b item cid :
  preprocessors (fst (get_response b item cid)) = preprocessors b.
Proof. by split_engine. Qed.

Lemma get_response_name b item cid :
  name (fst (get_response b item cid)) = name b.
Proof. by split_engine. Qed.

Lemma get_responses_input b calls : input (get_responses b calls) = input b.
Proof.
  revert b. induction calls as [|call calls IH]; intros b; [done|].
  simpl. rewrite IH. apply get_response_input.
Qed.

Lemma get_responses_output b calls : output (get_responses b calls) = output b.
Proof.
  revert b. induction calls as [|call calls IH]; intros b; [done|].
  simpl. rewrite IH. apply get_response_output.
Qed.

Lemma get_responses_preprocessors b calls :
  preprocessors (get_responses b calls) = preprocessors b.
Proof.
  revert b. induction calls as [|call calls IH]; intros b; [done|].
  simpl. rewrite IH. apply get_response_preprocessors.
Qed.

(** ** A session of calls *)

(** X1: once the bot has a default conversation, no call of
    [get_response] or [learn_response] replaces it: the only assignment to
    [default_conversation] sits under [if not self.default_conversation]. *)
Theorem default_conversation_never_replaced (b : ChatBot)
    (calls : list (string * option Z)) (d : Z) :
  default_conversation b = Some d ->
  default_conversation (get_responses b calls) = Some d ∧
  forall statement previous conversation,
    default_conversation (fst (learn_response b statement previous conversation))
    = Some d.
Proof.
  intros Hd. split; [by apply get_responses_default_kept|].
  intros statement previous [c|].
  - by rewrite learn_response_default_conversation.
  - unfold learn_response.
    rewrite (get_or_create_default_conversation_hit _ _ Hd).
    repeat case_match; simplify_eq/=; done.
Qed.

Lemma default_conversation_never_replaced_witness :
  default_conversation
    (get_responses Seeded.started [("How are you?"%string, Some 7);
                                   ("Fine"%string, None)])
  = Some 8.
Proof.
  destruct (default_conversation_never_replaced Seeded.started
              [("How are you?"%string, Some 7); ("Fine"%string, None)] 8 eq_refl)
    as [H _].
  exact H.
Defined.

(** X2: whatever ids the calls of a session supply, the only conversation a
    session can bring into the store is the default one: a conversation
    found in the store afterwards was there before, or is the bot's default
    conversation.  So a whole session adds at most one conversation. *)
Theorem session_creates_only_the_default (b : ChatBot)
    (calls : list (string * option Z)) (id : Z) :
  is_Some (conversations_table (storage (get_responses b calls)) !! id) ->
  (is_Some (conversations_table (storage b) !! id)
   ∨ default_conversation (get_responses b calls) = Some id) ∧
  (size (conversations_table (storage (get_responses b calls)))
   ≤ S (size (conversations_table (storage b))))%nat.
Proof.
  intros Hid. split; [by apply get_responses_table_new|].
  set (b' := get_responses b calls).
  rewrite <- !size_dom.
  assert (Hsub : dom (conversations_table (storage b'))
                 ⊆ dom (conversations_table (storage b))
                   ∪ match default_conversation b' with
                     | Some d => {[d]}
                     | None => ∅
                     end).
  { intros c Hc. apply elem_of_dom in Hc.
    apply get_responses_table_new in Hc as [Hc|Hc].
    - apply elem_of_union_l. by apply elem_of_dom.
    - fold b' in Hc. rewrite Hc. apply elem_of_union_r. set_solver. }
  apply subseteq_size in Hsub. rewrite size_union_alt in Hsub.
  etrans; [exact Hsub|].
  assert (Hone : (size (match default_conversation b' with
                        | Some d => {[d]}
                        | None => ∅
                        end ∖ dom (conversations_table (storage b))) ≤ 1)%nat).
  { etrans; [apply subseteq_size, subseteq_difference_l; reflexivity|].
    destruct (default_conversation b');
      [by rewrite size_singleton|rewrite size_empty; lia]. }
  lia.
Qed.

Lemma session_creates_only_the_default_witness :
  (size (conversations_table
           (storage (get_responses Demo.bot
                       [("Hi"%string, Some 7%Z); ("Fine"%string, Some 9%Z)])))
   ≤ S (size (conversations_table (storage Demo.bot))))%nat.
Proof.
  destruct (session_creates_only_the_default Demo.bot
              [("Hi"%string, Some 7); ("Fine"%string, Some 9)] 0) as [_ H].
  - vm_compute. eauto.
  - exact H.
Defined.

(** X3: a session only ever adds.  The turns a conversation held before are
    a prefix of the turns it holds after; no conversation and no persisted
    statement disappears, and no persisted occurrence count goes down:
    [get_response] calls [update], [save] and [statements.add], never a
    removal. *)
Theorem session_is_append_only (b : ChatBot) (calls : list (string * option Z)) :
  let b' := get_responses b calls in
  (forall c, statements (storage b) c `prefix_of` statements (storage b') c) ∧
  (forall c, is_Some (conversations_table (storage b) !! c) ->
             is_Some (conversations_table (storage b') !! c)) ∧
  (forall t, is_Some (statements_table (storage b) !! t) ->
             is_Some (statements_table (storage b') !! t)) ∧
  (forall t, (stored_count (storage b) t ≤ stored_count (storage b') t)%nat).
Proof.
  simpl. revert b. induction calls as [|call calls IH]; intros b.
  - repeat split; auto.
  - simpl.
    destruct (IH (fst (get_response b (fst call) (snd call))))
      as (Hp & Hc & Ht & Hn).
    split; [|split; [|split]].
    + intros c. etrans; [apply get_response_statements_prefix|apply Hp].
    + intros c Hin. by apply Hc, get_response_table_keeps.
    + intros t Hin. by apply Ht, get_response_statement_kept.
    + intros t. etrans; [apply get_response_stored_count_le|apply Hn].
Qed.

(** X4: [get_response] never reconfigures the bot: after any session the
    name, the logic adapters, the input and output adapters, the
    preprocessors and the read-only flag are the ones the session started
    with. *)
Theorem session_keeps_configuration (b : ChatBot) (calls : list (string * option Z)) :
  let b' := get_responses b calls in
  name b' = name b ∧ logic b' = logic b ∧ input b' = input b ∧
  output b' = output b ∧ preprocessors b' = preprocessors b ∧
  read_only b' = read_only b.
Proof.
  simpl. split.
  - revert b. induction calls as [|call calls IH]; intros b; [done|].
    simpl. rewrite IH. apply get_response_name.
  - auto using get_responses_logic, get_responses_input, get_responses_output,
      get_responses_preprocessors, get_responses_read_only.
Qed.

Lemma resolve_conversation_known b z :
  z ≠ 0 ->
  is_Some (conversations_table (storage b) !! z) ->
  resolve_conversation b (Some z) = (b, z).
Proof.
  intros Hz [turns Hturns]. unfold resolve_conversation, conversations_get.
  simpl. apply Z.eqb_neq in Hz. rewrite Hz. simpl. by rewrite Hturns.
Qed.

Lemma resolve_conversation_cases b cid :
  (exists z, cid = Some z ∧ z ≠ 0 ∧
             is_Some (conversations_table (storage b) !! z) ∧
             resolve_conversation b cid = (b, z))
  ∨ ((forall z, cid = Some z -> z ≠ 0 ->
                conversations_table (storage b) !! z = None) ∧
     resolve_conversation b cid = get_or_create_default_conversation b).
Proof.
  destruct cid as [z|]; [|right; split; [done|done]].
  destruct (decide (z = 0)) as [->|Hz]; [right; split; [congruence|done]|].
  destruct (conversations_table (storage b) !! z) as [turns|] eqn:E.
  - left. exists z. split; [done|]. split; [done|]. split; [eauto|].
    apply resolve_conversation_known; eauto.
  - right. split; [congruence|].
    unfold resolve_conversation, conversations_get. simpl.
    apply Z.eqb_neq in Hz. rewrite Hz. simpl. by rewrite E.
Qed.

Lemma resolve_conversation_after_call (b : ChatBot) (item : string)
    (cid : option Z) :
  snd (resolve_conversation (fst (get_response b item cid)) cid)
  = snd (resolve_conversation b cid).
Proof.
  set (b1 := fst (get_response b item cid)).
  destruct (resolve_conversation_cases b cid)
    as [(z & -> & Hz & Hknown & Hres)|[Hunknown Hres]].
  - rewrite Hres. simpl.
    rewrite resolve_conversation_known; [done|done|].
    by apply get_response_table_keeps.
  - rewrite Hres. set (c := snd (get_or_create_default_conversation b)).
    assert (Hd1 : default_conversation b1 = Some c).
    { subst b1. rewrite get_response_default_conversation, Hres.
      apply get_or_create_default_conversation_cached. }
    destruct (resolve_conversation_cases b1 cid)
      as [(z & -> & Hz & Hknown & Hres1)|[_ Hres1]]; rewrite Hres1; simpl.
    + apply get_response_table_new in Hknown as [[x Hx]|Hknown];
        [|fold b1 in Hknown; congruence].
      by rewrite (Hunknown z eq_refl Hz) in Hx.
    + by rewrite (get_or_create_default_conversation_hit _ _ Hd1).
Qed.

(** ** The constructor and the ids *)

(** X5: the constructor registers the logic adapters of the keyword
    arguments in the order given ([BestMatch] alone when the key is
    absent), and exactly one system adapter; this holds after any session.
    It is lazy about conversations: the new bot has no default conversation,
    an empty log, and its store is the storage adapter as it came. *)
Theorem constructor_registers_adapters (env : Modules) (name' : string)
    (kwargs : Kwargs) (calls : list (string * option Z)) :
  let b := ChatBot_init env name' kwargs in
  adapters (logic (get_responses b calls))
  = default [BestMatch env] (kw_logic_adapters kwargs) ∧
  system_adapters (logic (get_responses b calls))
  = [NoKnowledgeAdapter (kw_default_response kwargs)] ∧
  name b = name' ∧
  default_conversation b = None ∧
  logger b = [] ∧
  storage b = default (JsonFileStorageAdapter env) (kw_storage_adapter kwargs).
Proof.
  simpl. rewrite get_responses_logic. unfold ChatBot_init. simpl.
  by rewrite fold_add_adapter_adapters, fold_add_adapter_system_adapters.
Qed.

(** X6: the conversation id 0 is false for [if conversation_id:], so a
    call with id 0 is the call without an id.  With a default conversation
    other than 0 the turn goes there, and conversation 0 keeps its turns
    even if the store holds it. *)
Theorem zero_id_is_no_id (b : ChatBot) (item : string) (d : Z) :
  default_conversation b = Some d ->
  d ≠ 0 ->
  get_response b item (Some 0) = get_response b item None ∧
  snd (resolve_conversation b (Some 0)) = d ∧
  statements (storage (fst (get_response b item (Some 0)))) 0
  = statements (storage b) 0.
Proof.
  intros Hd Hne.
  assert (Hres : snd (resolve_conversation b (Some 0)) = d).
  { unfold resolve_conversation. simpl.
    by rewrite (get_or_create_default_conversation_hit _ _ Hd). }
  split; [done|]. split; [done|].
  apply get_response_statements_other. rewrite Hres. congruence.
Qed.

Lemma zero_id_is_no_id_witness :
  is_Some (conversations_table (storage Seeded.started) !! 0) ∧
  get_response Seeded.started "Fine" (Some 0)
  = get_response Seeded.started "Fine" None.
Proof.
  split; [vm_compute; eauto|].
  destruct (zero_id_is_no_id Seeded.started "Fine" 8 eq_refl) as [H _];
    [lia|exact H].
Defined.

(** X7: a call with the id of a conversation the store holds uses that
    conversation.  It creates nothing: the default conversation of the bot
    is what it was (none, if there was none), the store holds the same
    conversations, and the turn goes to the conversation named: nothing
    when read-only, otherwise the input statement as learned and then the
    response object (the learned input itself when the strategy handed the
    input object back). *)
Theorem known_id_is_used (b : ChatBot) (item : string) (z : Z)
    (turns : list Statement) :
  z ≠ 0 ->
  conversations_table (storage b) !! z = Some turns ->
  let b' := fst (get_response b item (Some z)) in
  let statement := input_statement_of b item in
  resolve_conversation b (Some z) = (b, z) ∧
  default_conversation b' = default_conversation b ∧
  (forall id, is_Some (conversations_table (storage b') !! id)
              <-> is_Some (conversations_table (storage b) !! id)) ∧
  statements (storage b') z
  = if read_only b then turns
    else turns ++ learned statement (last turns)
         :: option_list (response_object (learned statement (last turns))
                           <$> MultiLogicAdapter_process (logic b)
                                 (generate_base_query (storage b) z) statement).
Proof.
  intros Hz Hturns. simpl.
  assert (Hres : resolve_conversation b (Some z) = (b, z)).
  { unfold resolve_conversation, conversations_get. simpl.
    apply Z.eqb_neq in Hz. rewrite Hz. simpl. by rewrite Hturns. }
  split; [done|]. split; [|split].
  - by rewrite get_response_default_conversation, Hres.
  - intros id. split; [|apply get_response_table_keeps].
    intros Hid. destruct (decide (id = z)) as [->|Hne]; [eauto|].
    rewrite get_response_table_ne in Hid; [done|]. by rewrite Hres.
  - pose proof (get_response_statements b item (Some z)) as H.
    simpl in H. rewrite Hres in H. simpl in H. rewrite H.
    unfold statements. by rewrite Hturns.
Qed.

Lemma known_id_is_used_witness :
  default_conversation (fst (get_response Seeded.bot "Hi" (Some 7))) = None ∧
  statements (storage (fst (get_response Seeded.bot "Hi" (Some 7)))) 7
  = [Demo.hi; Demo.sorry].
Proof.
  destruct (known_id_is_used Seeded.bot "Hi" 7 []) as (_ & H1 & _ & H2);
    [lia|reflexivity|].
  split; [exact H1|exact H2].
Defined.

(** X8: after a call with some [conversation_id] argument, every later call
    with the same argument uses the same conversation, whatever calls came
    between: a known id stays known, and an unknown or absent id keeps
    meaning the default conversation, which is never replaced. *)
Theorem conversation_of_an_id_is_stable (b : ChatBot) (item : string)
    (cid : option Z) (calls : list (string * option Z)) :
  snd (resolve_conversation (get_responses (fst (get_response b item cid)) calls) cid)
  = snd (resolve_conversation b cid).
Proof.
  set (b1 := fst (get_response b item cid)).
  set (bn := get_responses b1 calls).
  destruct (resolve_conversation_cases b cid)
    as [(z & -> & Hz & Hknown & Hres)|[Hunknown Hres]].
  - (* the id names a conversation of the store: it still does *)
    rewrite Hres. simpl.
    rewrite resolve_conversation_known; [done|done|].
    by apply get_responses_table_keeps, get_response_table_keeps.
  - (* the call went to the default conversation: it is cached for good *)
    rewrite Hres. set (c := snd (get_or_create_default_conversation b)).
    assert (Hd1 : default_conversation b1 = Some c).
    { subst b1. rewrite get_response_default_conversation, Hres.
      apply get_or_create_default_conversation_cached. }
    assert (Hdn : default_conversation bn = Some c)
      by by apply get_responses_default_kept.
    destruct (resolve_conversation_cases bn cid)
      as [(z & -> & Hz & Hknown & Hresn)|[_ Hresn]]; rewrite Hresn; simpl.
    + apply get_responses_table_new in Hknown as [Hknown|Hknown];
        [|fold bn in Hknown; congruence].
      apply get_response_table_new in Hknown as [[x Hx]|Hknown];
        [|fold b1 in Hknown; congruence].
      by rewrite (Hunknown z eq_refl Hz) in Hx.
    + by rewrite (get_or_create_default_conversation_hit _ _ Hdn).
Qed.

(** ** Responses and learning across calls *)

Lemma get_response_snd b item cid :
  let c := snd (resolve_conversation b cid) in
  let statement := input_statement_of b item in
  snd (get_response b item cid)
  = (fun selected : Selected =>
       output b
         (response_object (learned statement (last (statements (storage b) c)))
            selected) c)
    <$> MultiLogicAdapter_process (logic b)
          (generate_base_query (storage (fst (resolve_conversation b cid))) c)
          statement.
Proof.
  simpl. rewrite <- resolve_conversation_statements.
  unfold get_response, generate_response.
  pose proof (resolve_conversation_logic b cid) as Hl.
  assert (Ho : output (fst (resolve_conversation b cid)) = output b)
    by (by split_engine).
  destruct (resolve_conversation b cid) as [b1 c]. simpl in *.
  assert (Ho' : output (fst (learn_response b1 (input_statement_of b item)
                  (get_last_response_statement (storage b1) c) (Some c)))
                = output b1) by (by split_engine).
  pose proof (learn_response_result b1 (input_statement_of b item)
    (get_last_response_statement (storage b1) c) (Some c)) as Hst.
  destruct (learn_response b1 _ _ _) as [b2 st]. simpl in *. subst st.
  rewrite Hl. case_match; [|done]. simpl.
  rewrite <- Ho, <- Ho'. by case_match.
Qed.

Lemma resolve_conversation_set_read_only b flag cid :
  resolve_conversation (set_read_only b flag) cid
  = (set_read_only (fst (resolve_conversation b cid)) flag,
     snd (resolve_conversation b cid)).
Proof.
  assert (Hgoc : get_or_create_default_conversation (set_read_only b flag)
                 = (set_read_only (fst (get_or_create_default_conversation b)) flag,
                    snd (get_or_create_default_conversation b))).
  { unfold get_or_create_default_conversation, Conversation_objects_create.
    simpl. by destruct (default_conversation b). }
  unfold resolve_conversation. rewrite Hgoc. simpl.
  destruct (truthy_id cid); [|done].
  by destruct (cid ≫= conversations_get (storage b)).
Qed.

(** X9: when the engine is not read-only, the last turn of the conversation
    after a call is the response object of the call: the statement the
    strategy handed back or, when it handed the input statement object
    back, the input statement as learned.  The caller gets that object
    through the output adapter.  So the next call in that conversation
    learns its input as a response to this response: the log says so and
    the learned statement, with the link added, is the next turn. *)
Theorem next_input_answers_this_response (b : ChatBot) (item item' : string)
    (cid : option Z) (selected : Selected) :
  let c := snd (resolve_conversation b cid) in
  let before := statements (storage b) c in
  let response :=
    response_object (learned (input_statement_of b item) (last before)) selected in
  let b1 := fst (get_response b item cid) in
  let statement' := input_statement_of b1 item' in
  read_only b = false ->
  MultiLogicAdapter_process (logic b)
    (generate_base_query (storage (fst (resolve_conversation b cid))) c)
    (input_statement_of b item) = Some selected ->
  snd (get_response b item cid) = Some (output b response c) ∧
  get_last_response_statement (storage b1) c = Some response ∧
  logger (fst (get_response b1 item' cid))
  = logger b1 ++ [Adding_response (text statement') (text response)] ∧
  exists rest,
    statements (storage (fst (get_response b1 item' cid))) c
    = statements (storage b1) c
      ++ add_response statement' (mkResponse (text response)) :: rest.
Proof.
  intros c before response b1 statement' Hro Hselected.
  assert (Hlast : last (statements (storage b1) c) = Some response).
  { subst b1 c. rewrite get_response_statements, Hro, Hselected. simpl.
    rewrite cons_middle, app_assoc. apply last_snoc. }
  assert (Hc : snd (resolve_conversation b1 cid) = c)
    by apply resolve_conversation_after_call.
  split.
  { pose proof (get_response_snd b item cid) as Hsnd. simpl in Hsnd.
    unfold c in Hselected. by rewrite Hsnd, Hselected. }
  split; [done|]. split.
  - rewrite get_response_logger, Hc, Hlast. done.
  - pose proof (get_response_statements b1 item' cid) as H. simpl in H.
    rewrite Hc, Hlast in H. subst b1.
    rewrite get_response_read_only, Hro in H. rewrite H. eauto.
Qed.

Lemma next_input_answers_this_response_witness :
  get_last_response_statement
    (storage (get_responses Echo.bot [("Hi"%string, None);
                                      ("How are you?"%string, None)])) 0
  = Some (add_response (mkStatement "How are you?") (mkResponse "Hi")) ∧
  logger (get_responses Echo.bot [("Hi"%string, None); ("How are you?"%string, None);
                                  ("Fine"%string, None)])
  = [Adding_response "How are you?" "Hi"; Adding_response "Fine" "How are you?"].
Proof.
  destruct (next_input_answers_this_response
              (fst (get_response Echo.bot "Hi" None)) "How are you?" "Fine" None
              Input_statement eq_refl eq_refl) as (_ & H1 & H2 & _).
  split; [exact H1|exact H2].
Defined.

(** X10: the read-only flag has no part in the answer of a call: the
    response is selected before anything is learned, so with the flag set
    either way the call returns the same response, uses the same
    conversation and writes the same log. *)
Theorem read_only_does_not_change_the_answer (b : ChatBot) (flag : bool)
    (item : string) (cid : option Z) :
  snd (get_response (set_read_only b flag) item cid) = snd (get_response b item cid) ∧
  snd (resolve_conversation (set_read_only b flag) cid)
  = snd (resolve_conversation b cid) ∧
  logger (fst (get_response (set_read_only b flag) item cid))
  = logger (fst (get_response b item cid)) ∧
  default_conversation (fst (get_response (set_read_only b flag) item cid))
  = default_conversation (fst (get_response b item cid)).
Proof.
  split; [|split; [|split]].
  - rewrite !get_response_snd, resolve_conversation_set_read_only. done.
  - by rewrite resolve_conversation_set_read_only.
  - rewrite !get_response_logger, resolve_conversation_set_read_only. done.
  - rewrite !get_response_default_conversation,
      resolve_conversation_set_read_only. done.
Qed.

(** X11: when the engine is not read-only, learning the same statement as a
    response to the same previous statement twice counts twice: the link is
    two higher, the persisted occurrence count is two higher, and the
    conversation has two more turns. *)
Theorem learning_twice_counts_twice (b : ChatBot) (statement previous : Statement)
    (c : Z) :
  read_only b = false ->
  let once := learn_response b statement (Some previous) (Some c) in
  let twice := learn_response (fst once) (snd once) (Some previous) (Some c) in
  link_count (snd twice) (text previous)
  = S (S (link_count statement (text previous))) ∧
  stored_count (storage (fst twice)) (text statement)
  = S (S (stored_count (storage b) (text statement))) ∧
  statements (storage (fst twice)) c
  = statements (storage b) c ++ [snd once; snd twice].
Proof.
  intros Hro once twice. subst twice once.
  rewrite !learn_response_result, !learn_response_storage.
  rewrite learn_response_read_only, Hro. simpl.
  split; [by rewrite !link_count_add_response|]. split.
  - rewrite stored_count_statements_add.
    change (text statement)
      with (text (add_response (add_response statement (mkResponse (text previous)))
                    (mkResponse (text previous)))) at 1.
    rewrite stored_count_storage_update. f_equal.
    rewrite (stored_count_statements_add _ c _ _).
    change (text (add_response (add_response statement (mkResponse (text previous)))
                    (mkResponse (text previous))))
      with (text (add_response statement (mkResponse (text previous)))).
    by rewrite stored_count_storage_update.
  - rewrite statements_statements_add, statements_storage_update,
      statements_statements_add, statements_storage_update.
    by rewrite <- app_assoc.
Qed.

Lemma learning_twice_counts_twice_witness :
  link_count
    (snd (learn_response
            (fst (learn_response Demo.bot Demo.hello (Some Demo.hi) (Some 0)))
            (snd (learn_response Demo.bot Demo.hello (Some Demo.hi) (Some 0)))
            (Some Demo.hi) (Some 0)))
    "Hi"
  = 2%nat.
Proof.
  destruct (learning_twice_counts_twice Demo.bot Demo.hello Demo.hi 0 eq_refl)
    as [H _].
  exact H.
Defined.

(** X12: [learn_response] called without a conversation works on the
    default conversation, creating and caching it when the bot has none: a
    later call without an id continues there, and when the engine is not
    read-only the learned statement is its new last turn. *)
Theorem learn_response_without_conversation (b : ChatBot) (statement : Statement)
    (previous : option Statement) :
  let result := learn_response b statement previous None in
  let c := snd (get_or_create_default_conversation b) in
  default_conversation (fst result) = Some c ∧
  snd (resolve_conversation (fst result) None) = c ∧
  statements (storage (fst result)) c
  = if read_only b then statements (storage b) c
    else statements (storage b) c ++ [learned statement previous].
Proof.
  simpl.
  assert (Heq : learn_response b statement previous None
                = learn_response (fst (get_or_create_default_conversation b))
                    statement previous
                    (Some (snd (get_or_create_default_conversation b)))).
  { unfold learn_response at 1 2.
    by destruct (get_or_create_default_conversation b). }
  rewrite Heq.
  assert (Hd : default_conversation
                 (fst (learn_response (fst (get_or_create_default_conversation b))
                         statement previous
                         (Some (snd (get_or_create_default_conversation b)))))
               = Some (snd (get_or_create_default_conversation b))).
  { rewrite learn_response_default_conversation.
    apply get_or_create_default_conversation_cached. }
  split; [done|]. split.
  - unfold resolve_conversation. simpl.
    by rewrite (get_or_create_default_conversation_hit _ _ Hd).
  - rewrite learn_response_storage, get_or_create_default_conversation_read_only.
    destruct (read_only b).
    + apply get_or_create_default_conversation_turns.
    + rewrite statements_statements_add, statements_storage_update.
      by rewrite get_or_create_default_conversation_turns.
Qed.

(** X13: a read-only bot that has its default conversation does not drift:
    whatever calls came before, the same input with the same conversation
    id gets the same answer, since no call changed the store, the default
    conversation or the configuration. *)
Theorem read_only_answers_do_not_drift (b : ChatBot)
    (calls : list (string * option Z)) (item : string) (cid : option Z) :
  read_only b = true ->
  is_Some (default_conversation b) ->
  snd (get_response (get_responses b calls) item cid) = snd (get_response b item cid) ∧
  storage (fst (get_response (get_responses b calls) item cid)) = storage b.
Proof.
  intros Hro [d Hd].
  set (bn := get_responses b calls).
  pose proof (get_responses_frozen b calls Hro) as Hf. fold bn in Hf.
  pose proof (frozen_with_default _ _ Hf (ex_intro _ d Hd)) as Hs.
  pose proof (get_responses_default_kept b calls d Hd) as Hdn. fold bn in Hdn.
  pose proof (get_responses_logic b calls) as Hl.
  pose proof (get_responses_input b calls) as Hi.
  pose proof (get_responses_output b calls) as Ho.
  pose proof (get_responses_preprocessors b calls) as Hp.
  pose proof (get_responses_read_only b calls) as Hr.
  fold bn in Hl, Hi, Ho, Hp, Hr.
  assert (Hst : input_statement_of bn item = input_statement_of b item).
  { unfold input_statement_of. by rewrite Hi, Hp, Hs. }
  assert (Hc : snd (resolve_conversation bn cid) = snd (resolve_conversation b cid)).
  { unfold resolve_conversation.
    rewrite (get_or_create_default_conversation_hit _ _ Hd),
      (get_or_create_default_conversation_hit _ _ Hdn), Hs.
    repeat case_match; simplify_eq/=; done. }
  split.
  - rewrite !get_response_snd, Hc, Hst, Hl, Ho.
    by rewrite (resolve_conversation_cached _ _ _ Hd),
      (resolve_conversation_cached _ _ _ Hdn), Hs.
  - rewrite <- Hs. apply frozen_with_default; [|eauto].
    apply get_response_frozen. by rewrite Hr.
Qed.

Lemma read_only_answers_do_not_drift_witness :
  snd (get_response
         (get_responses (set_read_only Seeded.started true)
            [("How are you?"%string, Some 7); ("Fine"%string, None)])
         "Hi" None)
  = snd (get_response (set_read_only Seeded.started true) "Hi" None).
Proof.
  destruct (read_only_answers_do_not_drift (set_read_only Seeded.started true)
              [("How are you?"%string, Some 7); ("Fine"%string, None)]
              "Hi" None eq_refl) as [H _].
  - vm_compute. eauto.
  - exact H.
Defined.
